(** * langflow/processing/process.py

    A shallow embedding of the flow processing module: tweak application
    ([validate_input], [apply_tweaks], [process_tweaks]), the trace
    formatter ([format_actions]), memory reconciliation
    ([fix_memory_inputs]), the executor ([get_result_and_thought]), the
    cached entry point ([process_graph_cached]) and the loader
    ([load_flow_from_json]).

    Python objects that the module receives as JSON documents are values of
    [pyval]; a raised exception is the [Err] branch of [result]; code that
    mutates its argument returns the argument's new state next to the
    outcome. *)

From Stdlib Require Import ZArith List String Ascii Bool Lia.
Import ListNotations.
Local Open Scope string_scope.

Set Implicit Arguments.
Set Warnings "-register-all".

(** ** Exceptions *)

Module Py.

(** The exception classes the module raises or can meet.  All of them derive
    from [Exception]; [exn_str] is what [str(exc)] returns. *)
Inductive exn_class : Type :=
| ValueError
| TypeError
| AttributeError
| KeyError
| IndexError
| OSError
| OtherException (name : string).

Record exn : Type := Raise { exn_cls : exn_class; exn_str : string }.

Inductive result (A : Type) : Type :=
| Ok (a : A)
| Err (e : exn).
Arguments Ok {A} a.
Arguments Err {A} e.

(** Sequencing: the first exception raised ends the computation. *)
Definition bind {A B : Type} (r : result A) (k : A -> result B) : result B :=
  match r with
  | Ok a => k a
  | Err e => Err e
  end.

Notation "'do' x <- r ; k" := (bind r (fun x => k))
  (at level 10, x name, r at level 100, k at level 200,
   format "'[v' 'do'  x  <-  r ; '/' k ']'").

Definition is_ValueError (e : exn) : bool :=
  match exn_cls e with ValueError => true | _ => false end.

(** ** JSON-like values

    What [json.load] produces and what a caller writes as a literal: a tree,
    no object is shared between two places.  A float is kept as the bit
    pattern of its IEEE-754 double; the module never computes with one, it
    only tests its truth value.  A dict is an association list in insertion
    order. *)
Inductive pyval : Type :=
| PNone
| PBool (b : bool)
| PInt (z : Z)
| PFloat (bits : Z)
| PStr (s : string)
| PList (l : list pyval)
| PDict (d : list (string * pyval)).

Definition dict : Type := list (string * pyval).

(** [bool(v)]: the truth value Python's [if], [and], [or] test. *)
Definition truthy (v : pyval) : bool :=
  match v with
  | PNone => false
  | PBool b => b
  | PInt z => negb (z =? 0)%Z
  | PFloat bits => negb (Z.land bits (2 ^ 63 - 1) =? 0)%Z
  | PStr s => negb (s =? "")
  | PList l => match l with [] => false | _ => true end
  | PDict d => match d with [] => false | _ => true end
  end.

Definition is_dict (v : pyval) : bool :=
  match v with PDict _ => true | _ => false end.

Definition is_list (v : pyval) : bool :=
  match v with PList _ => true | _ => false end.

Definition is_str (v : pyval) : bool :=
  match v with PStr _ => true | _ => false end.

(** [type(v).__name__], for the text of an [AttributeError]. *)
Definition type_name (v : pyval) : string :=
  match v with
  | PNone => "NoneType"
  | PBool _ => "bool"
  | PInt _ => "int"
  | PFloat _ => "float"
  | PStr _ => "str"
  | PList _ => "list"
  | PDict _ => "dict"
  end.

(** [d.get(k)] as an option, [k in d], and [d[k] = v]: the first entry with
    the key is the entry; assignment keeps its place, a new key goes last. *)
Fixpoint lookup (d : dict) (k : string) : option pyval :=
  match d with
  | [] => None
  | (k', v) :: d' => if k' =? k then Some v else lookup d' k
  end.

Definition mem (d : dict) (k : string) : bool :=
  match lookup d k with Some _ => true | None => false end.

Fixpoint assign (d : dict) (k : string) (v : pyval) : dict :=
  match d with
  | [] => [(k, v)]
  | (k', v') :: d' =>
      if k' =? k then (k', v) :: d' else (k', v') :: assign d' k v
  end.

(** [d.get(k, default)] *)
Definition get_default (d : dict) (k : string) (default : pyval) : pyval :=
  match lookup d k with Some v => v | None => default end.

(** [v.get(k, default)] on an arbitrary value: only a dict has [get]. *)
Definition dot_get (v : pyval) (k : string) (default : pyval) : result pyval :=
  match v with
  | PDict d => Ok (get_default d k default)
  | _ => Err (Raise AttributeError
                ("'" ++ type_name v ++ "' object has no attribute 'get'"))
  end.

(** [v["value"] = ...] on a value that is not a dict. *)
Definition item_assignment_error (v : pyval) : exn :=
  match v with
  | PList _ => Raise TypeError "list indices must be integers or slices, not str"
  | _ => Raise TypeError
           ("'" ++ type_name v ++ "' object does not support item assignment")
  end.

(** A Python dict holds a key once. *)
Fixpoint keys_once (d : dict) : bool :=
  match d with
  | [] => true
  | (k, _) :: d' => negb (mem d' k) && keys_once d'
  end.

End Py.
Import Py.

(** ** Tweak application *)

Module Tweaks.

Definition msg_not_dicts : string :=
  "graph_data and tweaks should be dictionaries".

Definition msg_no_nodes : string :=
  "graph_data should contain a list of nodes under 'data' key or directly under 'nodes' key".

(** [validate_input]:
<<
    if not isinstance(graph_data, dict) or not isinstance(tweaks, dict):
        raise ValueError(...)
    nodes = graph_data.get("data", {}).get("nodes") or graph_data.get("nodes")
    if not isinstance(nodes, list):
        raise ValueError(...)
    return nodes
>>
    It reads and never writes. *)
Definition validate_input (graph_data tweaks : pyval) : result (list pyval) :=
  match graph_data with
  | PDict g =>
      if negb (is_dict tweaks) then Err (Raise ValueError msg_not_dicts)
      else
        match dot_get (get_default g "data" (PDict [])) "nodes" PNone with
        | Err e => Err e
        | Ok under_data =>
            let nodes :=
              if truthy under_data then under_data
              else get_default g "nodes" PNone in
            match nodes with
            | PList l => Ok l
            | _ => Err (Raise ValueError msg_no_nodes)
            end
        end
  | _ => Err (Raise ValueError msg_not_dicts)
  end.

(** The loop of [apply_tweaks] over [node_tweaks.items()]:
<<
    if tweak_name and tweak_value and tweak_name in template_data:
        template_data[tweak_name]["value"] = tweak_value
>>
    The template is returned as it stands when the loop ends or raises. *)
Fixpoint tweak_template (template_data : dict) (items : dict)
  : dict * result unit :=
  match items with
  | [] => (template_data, Ok tt)
  | (tweak_name, tweak_value) :: rest =>
      if negb (tweak_name =? "") && truthy tweak_value
         && mem template_data tweak_name
      then
        match lookup template_data tweak_name with
        | Some (PDict field) =>
            tweak_template
              (assign template_data tweak_name
                 (PDict (assign field "value" tweak_value)))
              rest
        | Some other => (template_data, Err (item_assignment_error other))
        | None => tweak_template template_data rest
        end
      else tweak_template template_data rest
  end.

(** [apply_tweaks(node, node_tweaks)] for a [node] that is a dict.
<<
    template_data = node.get("data", {}).get("node", {}).get("template")
    if not isinstance(template_data, dict):
        logger.warning(...); return
    for tweak_name, tweak_value in node_tweaks.items(): ...
>>
    The template is mutated inside the node: the new node carries the new
    template at [data.node.template]. *)
Definition apply_tweaks (node : dict) (node_tweaks : pyval)
  : dict * result unit :=
  match dot_get (get_default node "data" (PDict [])) "node" (PDict []) with
  | Err e => (node, Err e)
  | Ok inner =>
      match dot_get inner "template" PNone with
      | Err e => (node, Err e)
      | Ok (PDict template_data) =>
          match node_tweaks with
          | PDict items =>
              let (template', r) := tweak_template template_data items in
              let inner' :=
                match inner with
                | PDict i => PDict (assign i "template" (PDict template'))
                | _ => inner
                end in
              let data' :=
                match get_default node "data" (PDict []) with
                | PDict dd => PDict (assign dd "node" inner')
                | other => other
                end in
              (assign node "data" data', r)
          | _ =>
              (node,
               Err (Raise AttributeError
                      ("'" ++ type_name node_tweaks
                           ++ "' object has no attribute 'items'")))
          end
      | Ok _ => (node, Ok tt)
      end
  end.

(** The body of the loop of [process_tweaks] for one node:
<<
    if isinstance(node, dict) and isinstance(node.get("id"), str):
        node_id = node["id"]
        if node_tweaks := tweaks.get(node_id):
            apply_tweaks(node, node_tweaks)
    else:
        logger.warning(...)
>>
*)
Definition tweak_node (tweaks : dict) (node : pyval) : pyval * result unit :=
  match node with
  | PDict n =>
      match lookup n "id" with
      | Some (PStr node_id) =>
          let node_tweaks := get_default tweaks node_id PNone in
          if truthy node_tweaks then
            let (n', r) := apply_tweaks n node_tweaks in (PDict n', r)
          else (node, Ok tt)
      | _ => (node, Ok tt)
      end
  | _ => (node, Ok tt)
  end.

(** [for node in nodes: ...]: stops at the first node that raises; the nodes
    before it keep their tweaks, the nodes after it are not visited. *)
Fixpoint tweak_nodes (tweaks : dict) (nodes : list pyval)
  : list pyval * result unit :=
  match nodes with
  | [] => ([], Ok tt)
  | node :: rest =>
      match tweak_node tweaks node with
      | (node', Err e) => (node' :: rest, Err e)
      | (node', Ok _) =>
          let (rest', r) := tweak_nodes tweaks rest in (node' :: rest', r)
      end
  end.

(** Where [validate_input] found the list it returned: the nodes are mutated
    there. *)
Definition store_nodes (g : dict) (nodes' : list pyval) : dict :=
  match get_default g "data" (PDict []) with
  | PDict dd =>
      if truthy (get_default dd "nodes" PNone)
      then assign g "data" (PDict (assign dd "nodes" (PList nodes')))
      else assign g "nodes" (PList nodes')
  | _ => g
  end.

(** [process_tweaks(graph_data, tweaks)]: the state of [graph_data] after the
    call, and either the exception raised or the value returned, which is
    [graph_data] itself. *)
Definition process_tweaks (graph_data tweaks : pyval)
  : pyval * result pyval :=
  match validate_input graph_data tweaks with
  | Err e => (graph_data, Err e)
  | Ok nodes =>
      match graph_data, tweaks with
      | PDict g, PDict t =>
          let (nodes', r) := tweak_nodes t nodes in
          let graph_data' := PDict (store_nodes g nodes') in
          match r with
          | Ok _ => (graph_data', Ok graph_data')
          | Err e => (graph_data', Err e)
          end
      | _, _ => (graph_data, Err (Raise ValueError msg_not_dicts))
      end
  end.

End Tweaks.

(** ** The trace formatter *)

Module Trace.

(** [langchain.schema.AgentAction]; [tool_input] is kept as the text the
    f-string renders for it. *)
Record AgentAction : Type :=
  { tool : string; tool_input : string; log : string }.

Definition step : Type := (AgentAction * string)%type.

(** The line feed, Python's ["\n"]. *)
Definition nl : string := String (ascii_of_nat 10) EmptyString.

(** [needle in hay] on strings. *)
Fixpoint contains (needle hay : string) : bool :=
  match hay with
  | EmptyString => prefix needle hay
  | String _ rest => prefix needle hay || contains needle rest
  end.

(** [output.append(line)] *)
Definition append_line (output : list string) (line : string) : list string :=
  (output ++ [line])%list.

(** One turn of the loop of [format_actions]: what the four [append]s add to
    [output]. *)
Definition format_step (output : list string) (st : step) : list string :=
  let (action, answer) := st in
  let output := append_line output ("Log: " ++ log action) in
  let output :=
    if negb (contains "Action" (log action))
       && negb (contains "Action Input" (log action))
    then append_line (append_line output ("Tool: " ++ tool action))
           ("Tool Input: " ++ tool_input action)
    else output in
  let output := append_line output ("Answer: " ++ answer) in
  append_line output "".

(** [format_actions]: [output = []], the loop, ["\n".join(output)]. *)
Definition format_actions (actions : list step) : string :=
  String.concat nl (fold_left format_step actions []).

(** The block of lines the specification asks for one pair: the log; the
    tool and its input unless the log mentions an action or action-input
    marker; the answer; an empty line. *)
Definition spec_block (st : step) : list string :=
  let (action, answer) := st in
  let log_line := "Log: " ++ log action in
  let tool_lines :=
    if contains "Action" (log action) || contains "Action Input" (log action)
    then []
    else ["Tool: " ++ tool action; "Tool Input: " ++ tool_input action] in
  let answer_line := "Answer: " ++ answer in
  (log_line :: tool_lines ++ [answer_line; ""])%list.

(** The block of one pair when only "Action" is looked for in the log. *)
Definition action_block (st : step) : list string :=
  let (action, answer) := st in
  let tool_lines :=
    if contains "Action" (log action) then []
    else ["Tool: " ++ tool action; "Tool Input: " ++ tool_input action] in
  let log_line := "Log: " ++ log action in
  let answer_line := "Answer: " ++ answer in
  (log_line :: tool_lines ++ [answer_line; ""])%list.

End Trace.
Import Trace.

(** ** Pipeline handles *)

Module Handle.

(** [langchain_object.memory], when it is an object. *)
Record Memory : Type := { memory_key : string }.

(** [langchain_object.prompt] *)
Record Prompt : Type := { prompt_input_variables : list string }.

(** The attributes of a langchain object the module looks at.  An attribute
    the object does not have ([hasattr] is false, reading it raises
    [AttributeError]) is [None]; [memory] can also be there and hold Python's
    [None], which is [Some None]. *)
Record attrs : Type :=
  { class_name : string;
    memory : option (option Memory);
    input_variables : option (list string);
    prompt : option Prompt;
    input_keys : option (list string);
    output_keys : option (list string);
    verbose : option bool;
    return_intermediate_steps : option bool }.

(** What the executor hands to the object: [None], [{key: message}] or the
    message itself. *)
Inductive chat_input : Type :=
| InNone
| InDict (key message : string)
| InMessage (message : string).

(** What an invocation returns: a dict, whose ["intermediate_steps"] entry
    (when it has one) is a list of steps and whose other entries are
    [entries]; or an object that is not a dict. *)
Inductive output : Type :=
| OutDict (entries : dict) (intermediate_steps : option (list step))
| OutObj (v : pyval).

(** A method of the object: from the attributes and the input to the
    attributes after the call, the text it printed, and what it returned or
    raised. *)
Definition method : Type :=
  attrs -> chat_input -> attrs * string * result output.

(** The object: its attributes, [__call__], and [run] when it has one. *)
Record handle : Type :=
  { state : attrs; call : method; run : option method }.

Definition with_state (h : handle) (o : attrs) : handle :=
  {| state := o; call := call h; run := run h |}.

Definition no_attribute (o : attrs) (name : string) : exn :=
  Raise AttributeError
    ("'" ++ class_name o ++ "' object has no attribute '" ++ name ++ "'").

Definition set_memory (o : attrs) (m : option (option Memory)) : attrs :=
  {| class_name := class_name o; memory := m;
     input_variables := input_variables o; prompt := prompt o;
     input_keys := input_keys o; output_keys := output_keys o;
     verbose := verbose o;
     return_intermediate_steps := return_intermediate_steps o |}.

Definition set_verbose (o : attrs) (b : bool) : attrs :=
  {| class_name := class_name o; memory := memory o;
     input_variables := input_variables o; prompt := prompt o;
     input_keys := input_keys o; output_keys := output_keys o;
     verbose := Some b;
     return_intermediate_steps := return_intermediate_steps o |}.

Definition set_return_intermediate_steps (o : attrs) (b : bool) : attrs :=
  {| class_name := class_name o; memory := memory o;
     input_variables := input_variables o; prompt := prompt o;
     input_keys := input_keys o; output_keys := output_keys o;
     verbose := verbose o;
     return_intermediate_steps := Some b |}.

(** [x in xs] on a list of strings. *)
Definition in_list (x : string) (xs : list string) : bool :=
  existsb (fun y => y =? x) xs.

(** Modelled from the spec: [update_memory_keys] is imported from
    [langflow.interface.run], which is not among the sources.  Section 4.3,
    step 4: "If a replacement is found, rewrite the handle's memory key to
    it". *)
Definition update_memory_keys (o : attrs) (new_key : string) : attrs :=
  set_memory o (Some (Some {| memory_key := new_key |})).

End Handle.
Import Handle.

(** ** Memory reconciliation and the executor *)

Module Executor.

Section WithMemoryPolicy.

(** [get_memory_key] is imported from [langflow.interface.run] and is not
    among the sources: it is taken as given.  It answers with a replacement
    memory key or with Python's [None]. *)
Variable get_memory_key : attrs -> option string.

(** The last lines of [fix_memory_inputs]:
<<
    possible_new_mem_key = get_memory_key(langchain_object)
    if possible_new_mem_key is not None:
        update_memory_keys(langchain_object, possible_new_mem_key)
>>
*)
Definition rewrite_memory_key (o : attrs) : attrs :=
  match get_memory_key o with
  | Some possible_new_mem_key => update_memory_keys o possible_new_mem_key
  | None => o
  end.

(** The [except AttributeError] branch's choice of names:
<<
    langchain_object.prompt.input_variables
    if hasattr(langchain_object, "prompt")
    else langchain_object.input_keys
>>
*)
Definition fallback_input_variables (o : attrs) : result (list string) :=
  match prompt o with
  | Some p => Ok (prompt_input_variables p)
  | None =>
      match input_keys o with
      | Some keys => Ok keys
      | None => Err (no_attribute o "input_keys")
      end
  end.

(** [fix_memory_inputs(langchain_object)]: the object after the call and
    whether the call returned or raised. *)
Definition fix_memory_inputs (o : attrs) : attrs * result unit :=
  match memory o with
  | None | Some None => (o, Ok tt)
  | Some (Some m) =>
      match input_variables o with
      | Some vars =>
          if in_list (memory_key m) vars then (o, Ok tt)
          else (rewrite_memory_key o, Ok tt)
      | None =>
          match fallback_input_variables o with
          | Err e => (o, Err e)
          | Ok vars =>
              if in_list (memory_key m) vars then (o, Ok tt)
              else (rewrite_memory_key o, Ok tt)
          end
      end
  end.

(** [memory_key] as [get_result_and_thought] computes it. *)
Definition current_memory_key (o : attrs) : string :=
  match memory o with
  | Some (Some m) => memory_key m
  | _ => ""
  end.

(** The input the executor builds:
<<
    chat_input = None
    if hasattr(langchain_object, "input_keys"):
        for key in langchain_object.input_keys:
            if key not in [memory_key, "chat_history"]:
                chat_input = {key: message}
    else:
        chat_input = message
>>
*)
Definition build_chat_input (o : attrs) (message : string) : chat_input :=
  let memory_key := current_memory_key o in
  match input_keys o with
  | Some keys =>
      fold_left
        (fun chat_input key =>
           if negb (in_list key [memory_key; "chat_history"])
           then InDict key message
           else chat_input)
        keys InNone
  | None => InMessage message
  end.

(** The invocations made, in order. *)
Inductive invocation : Type :=
| ViaCall (input : chat_input)
| ViaRun (input : chat_input).

(** The state threaded through an invocation: the object's attributes, what
    was printed to the redirected standard output, and the invocations made. *)
Record session : Type :=
  { object : attrs; printed : string; invoked : list invocation }.

(** [try: output = langchain_object(chat_input)
     except ValueError: output = langchain_object.run(chat_input)] *)
Definition invoke (h : handle) (o : attrs) (input : chat_input)
  : session * result output :=
  match call h o input with
  | (o1, text1, Ok out) =>
      ({| object := o1; printed := text1; invoked := [ViaCall input] |},
       Ok out)
  | (o1, text1, Err exc) =>
      if is_ValueError exc then
        match run h with
        | Some run_method =>
            match run_method o1 input with
            | (o2, text2, r) =>
                ({| object := o2; printed := text1 ++ text2;
                    invoked := [ViaCall input; ViaRun input] |}, r)
            end
        | None =>
            ({| object := o1; printed := text1; invoked := [ViaCall input] |},
             Err (no_attribute o1 "run"))
        end
      else
        ({| object := o1; printed := text1; invoked := [ViaCall input] |},
         Err exc)
  end.

(** The first component of what [get_result_and_thought] returns. *)
Inductive result_value : Type :=
| Data (v : pyval)
| Steps (l : list step).

(** [output.get("intermediate_steps", []) if isinstance(output, dict) else []] *)
Definition steps_of (out : output) : list step :=
  match out with
  | OutDict _ (Some l) => l
  | _ => []
  end.

(** [output.get(langchain_object.output_keys[0]) if isinstance(output, dict)
     else output] *)
Definition result_of (o : attrs) (out : output) : result result_value :=
  match out with
  | OutDict entries steps =>
      match output_keys o with
      | None => Err (no_attribute o "output_keys")
      | Some [] => Err (Raise IndexError "list index out of range")
      | Some (key :: _) =>
          if key =? "intermediate_steps" then
            Ok (match steps with Some l => Steps l | None => Data PNone end)
          else Ok (Data (get_default entries key PNone))
      end
  | OutObj v => Ok (Data v)
  end.

(** The thought: the formatted steps when there are any, else what was
    printed.
<<
    if intermediate_steps: thought = format_actions(intermediate_steps)
    else:                  thought = output_buffer.getvalue()
>>
*)
Definition thought_of (intermediate_steps : list step) (captured : string)
  : string :=
  match intermediate_steps with
  | [] => captured
  | _ => format_actions intermediate_steps
  end.

(** From the returned value to [(result, thought)]. *)
Definition normalise (o : attrs) (out : output) (captured : string)
  : result (result_value * string) :=
  let intermediate_steps := steps_of out in
  match result_of o out with
  | Err e => Err e
  | Ok result => Ok (result, thought_of intermediate_steps captured)
  end.

(** The lines of the [try] block before [fix_memory_inputs]: [verbose] is
    switched on when the object has it, the input is built, and
    [return_intermediate_steps] is switched off when the object has it. *)
Definition prepare (o : attrs) (message : string) : attrs * chat_input :=
  let o := match verbose o with Some _ => set_verbose o true | None => o end in
  let chat_input := build_chat_input o message in
  let o :=
    match return_intermediate_steps o with
    | Some _ => set_return_intermediate_steps o false
    | None => o
    end in
  (o, chat_input).

(** What the executor leaves behind and returns: the object, the invocations
    made, and the pair [(result, thought)] or the exception. *)
Definition outcome : Type :=
  (attrs * list invocation * result (result_value * string))%type.

(** The [try] block of [get_result_and_thought]. *)
Definition try_block (h : handle) (message : string) : outcome :=
  let (o, chat_input) := prepare (state h) message in
  match fix_memory_inputs o with
  | (o, Err e) => (o, [], Err e)
  | (o, Ok _) =>
      let (s, r) := invoke h o chat_input in
      match r with
      | Err e => (object s, invoked s, Err e)
      | Ok out => (object s, invoked s, normalise (object s) out (printed s))
      end
  end.

(** [except Exception as exc: raise ValueError(f"Error: {str(exc)}") from exc] *)
Definition wrapped (exc : exn) : exn :=
  Raise ValueError ("Error: " ++ exn_str exc).

(** [get_result_and_thought(langchain_object, message)] *)
Definition get_result_and_thought (h : handle) (message : string) : outcome :=
  match try_block h message with
  | (o, calls, Err exc) => (o, calls, Err (wrapped exc))
  | (o, calls, Ok r) => (o, calls, Ok r)
  end.

(** An exception that leaves the [try] block leaves the function wrapped. *)
Definition wrap_failure {A : Type} (r : result A) : result A :=
  match r with
  | Ok a => Ok a
  | Err exc => Err (wrapped exc)
  end.

(** The names in which [fix_memory_inputs] looks the memory key up:
    [input_variables], else the prompt's, else [input_keys]. *)
Definition declared_inputs (o : attrs) : result (list string) :=
  match input_variables o with
  | Some vars => Ok vars
  | None => fallback_input_variables o
  end.

(** The object declares its input names in one of the three places. *)
Definition declares_inputs (o : attrs) : bool :=
  match declared_inputs o with Ok _ => true | Err _ => false end.

(** The object has a memory that is not [None]. *)
Definition has_memory (o : attrs) : bool :=
  match memory o with Some (Some _) => true | _ => false end.


(** [key not in [memory_key, "chat_history"]] *)
Definition free_key (o : attrs) (key : string) : bool :=
  negb (in_list key [current_memory_key o; "chat_history"]).

End WithMemoryPolicy.

End Executor.

(** ** The loader *)

Module Loader.

(** [load_flow_from_json]'s first argument: a [pathlib.Path], or any other
    object (a [str] among them). *)
Inductive source : Type :=
| FromPath (path : string)
| FromValue (v : pyval).

(** [v[k]] for a string [k]: a dict answers or raises [KeyError]; nothing
    else can be subscripted by a string. *)
Definition subscript (v : pyval) (k : string) : result pyval :=
  match v with
  | PDict d =>
      match lookup d k with
      | Some x => Ok x
      | None => Err (Raise KeyError ("'" ++ k ++ "'"))
      end
  | PList _ =>
      Err (Raise TypeError "list indices must be integers or slices, not str")
  | PStr _ => Err (Raise TypeError "string indices must be integers")
  | _ =>
      Err (Raise TypeError ("'" ++ type_name v ++ "' object is not subscriptable"))
  end.

Section WithCollaborators.

(** [get_memory_key], as for the executor. *)
Variable get_memory_key : attrs -> option string.

(** [open(input, "r", encoding="utf-8")] followed by [json.load]: the
    document found at a path, or the exception raised on the way. *)
Variable read_json : string -> result pyval.

(** [langflow.graph.Graph] is not among the sources: the constructor and
    [build] are taken as given. *)
Variable graph : Type.
Variable Graph : pyval -> pyval -> result graph.
Variable build_graph : graph -> result handle.

(** What the loader did with its collaborators, in order. *)
Inductive event : Type :=
| Opened (path : string)
| Constructed (nodes edges : pyval)
| Built.

Inductive loaded : Type :=
| Object (h : handle)
| Unbuilt (g : graph).

Definition msg_bad_source : string :=
  "Input must be either a file path (str) or a JSON object (dict)".

(** From [graph_data = flow_graph["data"]] to [edges = graph_data["edges"]]:
<<
    graph_data = flow_graph["data"]
    if tweaks is not None:
        graph_data = process_tweaks(graph_data, tweaks)
    nodes = graph_data["nodes"]
    edges = graph_data["edges"]
>>
*)
Definition graph_parts (flow_graph tweaks : pyval) : result (pyval * pyval) :=
  do graph_data <- subscript flow_graph "data";
  do graph_data <- match tweaks with
                   | PNone => Ok graph_data
                   | _ => snd (Tweaks.process_tweaks graph_data tweaks)
                   end;
  do nodes <- subscript graph_data "nodes";
  do edges <- subscript graph_data "edges";
  Ok (nodes, edges).

(** What the loader does to the object it has built: [verbose] on and
    [return_intermediate_steps] off when the object has them, then
    [fix_memory_inputs]. *)
Definition configure (h : handle) : result handle :=
  let o := state h in
  let o := match verbose o with Some _ => set_verbose o true | None => o end in
  let o :=
    match return_intermediate_steps o with
    | Some _ => set_return_intermediate_steps o false
    | None => o
    end in
  match Executor.fix_memory_inputs get_memory_key o with
  | (_, Err e) => Err e
  | (o, Ok _) => Ok (with_state h o)
  end.

(** From [graph_data = flow_graph["data"]] to the end of the function. *)
Definition load_graph (log : list event) (flow_graph tweaks : pyval)
    (build : bool) : list event * result loaded :=
  match graph_parts flow_graph tweaks with
  | Err e => (log, Err e)
  | Ok (nodes, edges) =>
      let log := (log ++ [Constructed nodes edges])%list in
      match Graph nodes edges with
      | Err e => (log, Err e)
      | Ok g =>
          if build then
            ((log ++ [Built])%list,
             do h <- build_graph g;
             do h <- configure h;
             Ok (Object h))
          else (log, Ok (Unbuilt g))
      end
  end.

(** [load_flow_from_json(input, tweaks, build)]:
<<
    if isinstance(input, (str, Path)): flow_graph = json.load(open(input))
    elif isinstance(input, dict):      flow_graph = input
    else: raise TypeError(...)
>>
    [tweaks] is [PNone] when the caller gives none. *)
Definition load_flow_from_json (input : source) (tweaks : pyval) (build : bool)
  : list event * result loaded :=
  match input with
  | FromPath path | FromValue (PStr path) =>
      match read_json path with
      | Err e => ([Opened path], Err e)
      | Ok flow_graph => load_graph [Opened path] flow_graph tweaks build
      end
  | FromValue (PDict d) => load_graph [] (PDict d) tweaks build
  | FromValue _ => ([], Err (Raise TypeError msg_bad_source))
  end.

End WithCollaborators.

End Loader.

(** ** The cached entry point *)

Module Cached.
Import Executor.

Section WithCollaborators.

(** [get_memory_key], as for the executor. *)
Variable get_memory_key : attrs -> option string.

(** [build_langchain_object_with_caching] is imported from
    [langflow.interface.run] and is not among the sources: it answers with
    an object or with Python's [None], or raises. *)
Variable build_langchain_object_with_caching :
  pyval -> result (option handle).

(** [str(result)] and [thought.strip()], Python built-ins. *)
Variable str_of : result_value -> string.
Variable strip : string -> string.

Definition msg_not_loaded : string :=
  "There was an error loading the langchain_object. Please, check all the nodes and try again.".

(** [process_graph_cached(data_graph, message)]: the invocations made and
    the dict returned or the exception raised.
<<
    langchain_object = build_langchain_object_with_caching(data_graph)
    if langchain_object is None:
        raise ValueError(...)
    result, thought = get_result_and_thought(langchain_object, message)
    return {"result": str(result), "thought": thought.strip()}
>>
*)
Definition process_graph_cached (data_graph : pyval) (message : string)
  : list invocation * result pyval :=
  match build_langchain_object_with_caching data_graph with
  | Err e => ([], Err e)
  | Ok None => ([], Err (Raise ValueError msg_not_loaded))
  | Ok (Some langchain_object) =>
      match get_result_and_thought get_memory_key langchain_object message
      with
      | (_, calls, Err e) => (calls, Err e)
      | (_, calls, Ok (result, thought)) =>
          (calls,
           Ok (PDict [("result", PStr (str_of result));
                      ("thought", PStr (strip thought))]))
      end
  end.

End WithCollaborators.

End Cached.

(** ** Reading a graph description

    The places of a description that the statements about tweaks name. *)

Module Shape.

(** The id of a node that is a dict with a [str] under ["id"]. *)
Definition node_id (node : pyval) : option string :=
  match node with
  | PDict n =>
      match lookup n "id" with
      | Some (PStr s) => Some s
      | _ => None
      end
  | _ => None
  end.

(** The template of a node: the dict at [node["data"]["node"]["template"]]. *)
Definition template_of (node : pyval) : option dict :=
  match node with
  | PDict n =>
      match lookup n "data" with
      | Some (PDict dd) =>
          match lookup dd "node" with
          | Some (PDict inner) =>
              match lookup inner "template" with
              | Some (PDict template) => Some template
              | _ => None
              end
          | _ => None
          end
      | _ => None
      end
  | _ => None
  end.

(** [template[name]["value"]] *)
Definition value_of (template : dict) (name : string) : option pyval :=
  match lookup template name with
  | Some (PDict field) => lookup field "value"
  | _ => None
  end.

(** [tweak_name and tweak_value]: the pair passes the guard of the loop. *)
Definition effective (name : string) (value : pyval) : bool :=
  negb (name =? "") && truthy value.

(** Every template entry that an effective pair of [items] names is a dict. *)
Definition targets_mappings (template items : dict) : bool :=
  forallb
    (fun item : string * pyval =>
       if effective (fst item) (snd item) then
         match lookup template (fst item) with
         | Some field => is_dict field
         | None => true
         end
       else true)
    items.

(** A tweak map: every entry is a dict of overrides. *)
Definition tweak_map (t : dict) : bool :=
  forallb
    (fun entry : string * pyval =>
       match snd entry with
       | PDict items => keys_once items
       | _ => false
       end)
    t.

(** A node that [tweaks] reaches has dicts under ["data"] and
    [data["node"]] (or lacks those keys), and its template, when it is a
    dict, has a dict under every parameter an effective override names. *)
Definition node_ok (t : dict) (node : pyval) : bool :=
  match node, node_id node with
  | PDict n, Some nid =>
      match lookup t nid with
      | Some (PDict (item :: items)) =>
          match get_default n "data" (PDict []) with
          | PDict dd =>
              match get_default dd "node" (PDict []) with
              | PDict inner =>
                  match lookup inner "template" with
                  | Some (PDict template) =>
                      targets_mappings template (item :: items)
                  | _ => true
                  end
              | _ => false
              end
          | _ => false
          end
      | _ => true
      end
  | _, _ => true
  end.

(** The description and the tweak map on which [process_tweaks] is specified:
    [validate_input] finds the node list, [tweaks] is a tweak map, and every
    node is [node_ok]. *)
Definition well_shaped (graph_data tweaks : pyval) : bool :=
  match Tweaks.validate_input graph_data tweaks, tweaks with
  | Ok nodes, PDict t => tweak_map t && forallb (node_ok t) nodes
  | _, _ => false
  end.

(** What the loop of [apply_tweaks] leaves in the template. *)
Record overlaid (template items template' : dict) : Prop :=
  { same_keys : map fst template' = map fst template;
    skipped :
      forall name,
        (forall value, In (name, value) items -> effective name value = false) ->
        lookup template' name = lookup template name;
    applied :
      keys_once items = true ->
      forall name value,
        In (name, value) items -> effective name value = true ->
        mem template name = true ->
        value_of template' name = Some value }.

(** What [process_tweaks] does to one node. *)
Definition tweaked (t : dict) (node node' : pyval) : Prop :=
  node_id node' = node_id node /\
  (forall nid items template,
      node_id node = Some nid -> lookup t nid = Some (PDict items) ->
      template_of node = Some template ->
      exists template',
        template_of node' = Some template' /\
        overlaid template items template') /\
  ((forall nid, node_id node = Some nid -> lookup t nid = None) ->
   node' = node).

(** No entry of the tweak map is applied to the node: it has no [str] id, or
    the entry under its id is missing or falsy. *)
Definition unmatched (t : dict) (node : pyval) : bool :=
  match node_id node with
  | Some nid => negb (truthy (get_default t nid PNone))
  | None => true
  end.

(** The exceptions tweak application raises once the arguments are
    validated. *)
Definition assignment_or_attribute (e : exn) : Prop :=
  exn_cls e = TypeError \/ exn_cls e = AttributeError.

End Shape.
Import Shape.

(** ** Example descriptions, objects and collaborators *)

Module Examples.
Import Executor.

(** A node with id ["llm"] and the given template, a description with the
    given nodes at the top level, and a tweak map with one override for
    ["llm"]. *)
Definition one_node (template : dict) : pyval :=
  PDict [("id", PStr "llm");
         ("data", PDict [("node", PDict [("template", PDict template)])])].

Definition flow_of (nodes : list pyval) : pyval :=
  PDict [("nodes", PList nodes); ("edges", PList [])].

Definition tweak_for (name : string) (value : pyval) : pyval :=
  PDict [("llm", PDict [(name, value)])].


Definition no_replacement (o : attrs) : option string := None.




(** A policy that answers from the memory key alone. *)
Definition flip_policy (o : attrs) : option string :=
  match current_memory_key o with
  | "chat_history" => Some "history"
  | "history" => Some "chat_history"
  | _ => None
  end.

Definition question_object : attrs :=
  {| class_name := "LLMChain";
     memory := Some (Some {| memory_key := "chat_history" |});
     input_variables := None; prompt := None;
     input_keys := Some ["question"];
     output_keys := Some ["text"]; verbose := Some false;
     return_intermediate_steps := None |}.

(** A chain without memory, with the given [input_keys]. *)
Definition plain_object (keys : option (list string)) : attrs :=
  {| class_name := "Chain"; memory := None;
     input_variables := None; prompt := None; input_keys := keys;
     output_keys := Some ["text"]; verbose := Some false;
     return_intermediate_steps := Some true |}.

(** [__call__] that rejects its input with a [ValueError]. *)
Definition strict_call : method :=
  fun o _ => (o, "", Err (Raise ValueError "Missing some input keys")).

(** [run] that answers with the text of the input. *)
Definition echo_run : method :=
  fun o input =>
    (o, "> Entering new chain",
     Ok (OutObj (PStr match input with
                      | InNone => "None"
                      | InDict _ message => message
                      | InMessage message => message
                      end))).

(** [__call__] that fails with a [KeyError]. *)
Definition broken_call : method :=
  fun o _ => (o, "", Err (Raise KeyError "'text'")).

(** An agent with a memory under ["history"] and four input keys. *)
Definition agent_object : attrs :=
  {| class_name := "AgentExecutor";
     memory := Some (Some {| memory_key := "history" |});
     input_variables := None; prompt := None;
     input_keys := Some ["input"; "history"; "question"; "chat_history"];
     output_keys := Some ["output"]; verbose := None;
     return_intermediate_steps := None |}.

Definition strict_handle : handle :=
  {| state := plain_object (Some ["question"]);
     call := strict_call; run := Some echo_run |}.

Definition broken_handle : handle :=
  {| state := plain_object (Some ["question"]);
     call := broken_call; run := Some echo_run |}.

(** Collaborators for the examples: no file can be read, a graph is the
    pair of its nodes and edges, and building gives a fixed object. *)
Definition no_file (path : string) : result pyval :=
  Err (Raise OSError ("No such file or directory: '" ++ path ++ "'")).

Definition pair_graph (nodes edges : pyval) : result (pyval * pyval) :=
  Ok (nodes, edges).

Definition build_pair (g : pyval * pyval) : result handle :=
  Ok strict_handle.

End Examples.
Import Examples.

(** * Properties *)

(** ** Dicts *)

Module DictFacts.

Lemma lookup_assign_same (d : dict) (k : string) (v : pyval) :
  lookup (assign d k v) k = Some v.
Proof.
  induction d as [|[k' v'] d IH]; simpl.
  - now rewrite String.eqb_refl.
  - destruct (k' =? k) eqn:E; simpl; rewrite E; auto.
Qed.

Lemma lookup_assign_other (d : dict) (k k' : string) (v : pyval) :
  k <> k' -> lookup (assign d k v) k' = lookup d k'.
Proof.
  intros Hne. induction d as [|[k0 v0] d IH]; simpl.
  - apply String.eqb_neq in Hne. now rewrite Hne.
  - destruct (k0 =? k) eqn:E; simpl.
    + apply String.eqb_eq in E. subst k0.
      apply String.eqb_neq in Hne. now rewrite Hne.
    + now rewrite IH.
Qed.

Lemma keys_assign (d : dict) (k : string) (v : pyval) :
  mem d k = true -> map fst (assign d k v) = map fst d.
Proof.
  unfold mem. induction d as [|[k0 v0] d IH]; simpl.
  - discriminate.
  - destruct (k0 =? k) eqn:E; simpl; auto.
    intros H. now rewrite IH.
Qed.

Lemma lookup_keys (d d' : dict) (k : string) :
  map fst d' = map fst d -> mem d' k = mem d k.
Proof.
  unfold mem. revert d'.
  induction d as [|[k0 v0] d IH]; intros [|[k1 v1] d']; simpl;
    try discriminate; auto.
  intros H. injection H as -> H.
  destruct (k0 =? k); auto.
Qed.

Lemma mem_false_not_In (d : dict) (k : string) (v : pyval) :
  mem d k = false -> ~ In (k, v) d.
Proof.
  unfold mem. induction d as [|[k0 v0] d IH]; simpl; auto.
  destruct (k0 =? k) eqn:E; [discriminate|].
  intros H [Heq | Hin]; [|now apply IH].
  injection Heq as -> _. now rewrite String.eqb_refl in E.
Qed.

Lemma mem_lookup (d : dict) (k : string) :
  mem d k = true -> exists v, lookup d k = Some v.
Proof.
  unfold mem. destruct (lookup d k) as [v|]; [eauto | discriminate].
Qed.

End DictFacts.

(** ** Tweak application *)

Module TweakFacts.
Import DictFacts Tweaks.

Lemma targets_mappings_assign (template items field : dict) (name : string) :
  targets_mappings template items = true ->
  targets_mappings (assign template name (PDict field)) items = true.
Proof.
  unfold targets_mappings. rewrite !forallb_forall.
  intros H item Hin. specialize (H item Hin).
  destruct (effective (fst item) (snd item)); auto.
  destruct (String.eqb_spec name (fst item)) as [<- | Hne].
  - now rewrite lookup_assign_same.
  - now rewrite lookup_assign_other.
Qed.

Lemma overlaid_refl (template : dict) : overlaid template [] template.
Proof. split; auto. intros _ name value []. Qed.

Lemma tweak_template_overlays (items template : dict) :
  targets_mappings template items = true ->
  exists template',
    tweak_template template items = (template', Ok tt) /\
    overlaid template items template'.
Proof.
  revert template.
  induction items as [|[n v] rest IH]; intros template Hok.
  - exists template. split; [reflexivity | apply overlaid_refl].
  - simpl in Hok. apply andb_true_iff in Hok as [Hhead Hrest].
    fold (targets_mappings template rest) in Hrest.
    simpl tweak_template. fold (effective n v).
    destruct (effective n v && mem template n) eqn:Hguard.
    + apply andb_true_iff in Hguard as [Heff Hmem].
      rewrite Heff in Hhead.
      destruct (mem_lookup _ _ Hmem) as [x Hx]. rewrite Hx in Hhead |- *.
      destruct x as [| | | | | |field]; try discriminate.
      set (template1 :=
             assign template n (PDict (assign field "value" v))).
      destruct (IH template1) as [template' [Hrun Hov]].
      { now apply targets_mappings_assign. }
      exists template'. split; [exact Hrun|].
      assert (Hkeys : map fst template1 = map fst template)
        by now apply keys_assign.
      destruct Hov as [Hsame Hskip Happ]. split.
      * now rewrite Hsame.
      * intros name Hname.
        assert (Hne : n <> name).
        { intros ->. specialize (Hname v (or_introl eq_refl)). congruence. }
        rewrite Hskip by (intros value Hin; apply Hname; now right).
        now apply lookup_assign_other.
      * simpl. intros Honce name value Hin Heff' Hmem'.
        apply andb_true_iff in Honce as [Hfresh Honce].
        apply negb_true_iff in Hfresh.
        destruct Hin as [Heq | Hin].
        -- injection Heq as <- <-.
           unfold value_of. rewrite Hskip.
           ++ subst template1. rewrite lookup_assign_same.
              apply lookup_assign_same.
           ++ intros value Hin. now apply mem_false_not_In in Hin.
        -- apply Happ; auto.
           now rewrite (lookup_keys _ _ name Hkeys).
    + destruct (IH template Hrest) as [template' [Hrun Hov]].
      exists template'. split; [exact Hrun|].
      destruct Hov as [Hsame Hskip Happ]. split; auto.
      * intros name Hname. apply Hskip.
        intros value Hin. apply Hname. now right.
      * simpl. intros Honce name value Hin Heff' Hmem'.
        apply andb_true_iff in Honce as [_ Honce].
        destruct Hin as [Heq | Hin]; [|now apply Happ].
        injection Heq as <- <-. rewrite Heff', Hmem' in Hguard. discriminate.
Qed.

Lemma get_default_dict_lookup (d inner : dict) (k k' : string) (x : pyval) :
  get_default d k (PDict []) = PDict inner ->
  lookup inner k' = Some x ->
  lookup d k = Some (PDict inner).
Proof.
  unfold get_default. destruct (lookup d k) as [v|].
  - now intros ->.
  - intros H. injection H as <-. discriminate.
Qed.

Lemma apply_tweaks_template (n dd inner template items : dict) :
  get_default n "data" (PDict []) = PDict dd ->
  get_default dd "node" (PDict []) = PDict inner ->
  lookup inner "template" = Some (PDict template) ->
  targets_mappings template items = true ->
  exists n' template',
    apply_tweaks n (PDict items) = (n', Ok tt) /\
    lookup n' "id" = lookup n "id" /\
    template_of (PDict n') = Some template' /\
    overlaid template items template'.
Proof.
  intros Hdata Hnode Htpl Hok.
  destruct (tweak_template_overlays items template Hok)
    as [template' [Hrun Hov]].
  unfold apply_tweaks. rewrite Hdata. simpl dot_get. rewrite Hnode.
  simpl dot_get. unfold get_default at 1. rewrite Htpl, Hrun.
  eexists. exists template'. split; [reflexivity|].
  split; [now apply lookup_assign_other|].
  split; [|exact Hov].
  unfold template_of. now rewrite !lookup_assign_same.
Qed.

Lemma template_of_unfold (n : dict) (template : dict) :
  template_of (PDict n) = Some template ->
  exists dd inner,
    get_default n "data" (PDict []) = PDict dd /\
    get_default dd "node" (PDict []) = PDict inner /\
    lookup inner "template" = Some (PDict template).
Proof.
  unfold template_of, get_default.
  destruct (lookup n "data") as [[| | | | | |dd]|]; try discriminate.
  destruct (lookup dd "node") as [[| | | | | |inner]|] eqn:Hn;
    try discriminate.
  destruct (lookup inner "template") as [[| | | | | |tp]|] eqn:Ht;
    try discriminate.
  intros H. injection H as ->. exists dd, inner. now rewrite Hn.
Qed.

Lemma template_of_none (n dd inner : dict) :
  get_default n "data" (PDict []) = PDict dd ->
  get_default dd "node" (PDict []) = PDict inner ->
  template_of (PDict n) = None ->
  forall template, lookup inner "template" <> Some (PDict template).
Proof.
  intros Hdata Hnode Hnone template Htpl.
  pose proof (get_default_dict_lookup _ _ _ Hnode Htpl) as Hn.
  pose proof (get_default_dict_lookup _ _ _ Hdata Hn) as Hd.
  unfold template_of in Hnone. now rewrite Hd, Hn, Htpl in Hnone.
Qed.

Lemma lookup_In (d : dict) (k : string) (v : pyval) :
  lookup d k = Some v -> In (k, v) d.
Proof.
  induction d as [|[k0 v0] d IH]; simpl; [discriminate|].
  destruct (String.eqb_spec k0 k) as [-> | _].
  - intros H. injection H as ->. now left.
  - intros H. right. now apply IH.
Qed.

Lemma tweak_map_entry (t : dict) (k : string) (v : pyval) :
  tweak_map t = true -> lookup t k = Some v ->
  exists items, v = PDict items /\ keys_once items = true.
Proof.
  unfold tweak_map. rewrite forallb_forall.
  intros Hmap Hlook. specialize (Hmap _ (lookup_In _ _ Hlook)).
  simpl in Hmap. destruct v; try discriminate. eauto.
Qed.

Lemma tweaked_refl (t : dict) (node : pyval) :
  (forall nid items,
      node_id node = Some nid -> lookup t nid = Some (PDict items) ->
      items = []) ->
  tweaked t node node.
Proof.
  intros Hnone. split; [reflexivity|]. split; [|reflexivity].
  intros nid items template Hid Hlook Htpl.
  rewrite (Hnone nid items Hid Hlook).
  exists template. split; [assumption | apply overlaid_refl].
Qed.

Lemma tweak_node_ok (t : dict) (node : pyval) :
  tweak_map t = true -> node_ok t node = true ->
  exists node', tweak_node t node = (node', Ok tt) /\ tweaked t node node'.
Proof.
  intros Hmap Hok.
  destruct node as [| | | | | |n];
    try (eexists; split; [reflexivity|];
         apply tweaked_refl; intros nid items Hid; discriminate).
  unfold tweak_node, node_ok, node_id in *.
  destruct (lookup n "id") as [[| | | |nid| |]|] eqn:Hid;
    try (eexists; split; [reflexivity|];
         apply tweaked_refl; unfold node_id; rewrite Hid; discriminate).
  change (get_default t nid PNone)
    with (match lookup t nid with Some v => v | None => PNone end).
  destruct (lookup t nid) as [v|] eqn:Hlook.
  2:{ eexists. split; [reflexivity|].
      apply tweaked_refl. unfold node_id. rewrite Hid.
      intros nid' items H. injection H as <-. congruence. }
  destruct (tweak_map_entry _ _ Hmap Hlook) as [items [-> Honce]].
  destruct items as [|item items].
  { eexists. split; [reflexivity|].
    apply tweaked_refl. unfold node_id. rewrite Hid.
    intros nid' items H. injection H as <-. congruence. }
  simpl truthy. cbv iota.
  destruct (get_default n "data" (PDict [])) as [| | | | | |dd] eqn:Hdata;
    try discriminate.
  destruct (get_default dd "node" (PDict [])) as [| | | | | |inner] eqn:Hnode;
    try discriminate.
  destruct (lookup inner "template") as [tv|] eqn:Htpl.
  2:{ exists (PDict n). split.
      - unfold apply_tweaks. rewrite Hdata. simpl dot_get.
        rewrite Hnode. simpl dot_get. unfold get_default. now rewrite Htpl.
      - split; [reflexivity|]. split.
        + intros nid' items' template _ _ Htemplate.
          apply template_of_unfold in Htemplate
            as [dd' [inner' [Hd' [Hn' Ht']]]].
          congruence.
        + unfold node_id. rewrite Hid. intros H.
          specialize (H nid eq_refl). congruence. }
  destruct tv as [| | | | | |template];
    try (exists (PDict n); split;
         [ unfold apply_tweaks; rewrite Hdata; simpl dot_get;
           rewrite Hnode; simpl dot_get; unfold get_default; now rewrite Htpl
         | split; [reflexivity|]; split;
           [ intros nid' items' template _ _ Htemplate;
             apply template_of_unfold in Htemplate
               as [dd' [inner' [Hd' [Hn' Ht']]]]; congruence
           | unfold node_id; rewrite Hid; intros H;
             specialize (H nid eq_refl); congruence ] ]).
  destruct (apply_tweaks_template n (item :: items) Hdata Hnode Htpl Hok)
    as [n' [template' [Hrun [Hid' [Htemplate' Hov]]]]].
  rewrite Hrun. exists (PDict n'). split; [reflexivity|].
  split; [unfold node_id; now rewrite Hid', Hid|].
  split.
  - intros nid' items' template0 Hnid Hlook' Htemplate0.
    unfold node_id in Hnid. rewrite Hid in Hnid. injection Hnid as <-.
    rewrite Hlook in Hlook'. injection Hlook' as <-.
    apply template_of_unfold in Htemplate0
      as [dd' [inner' [Hd' [Hn' Ht']]]].
    assert (dd' = dd) by congruence. subst dd'.
    assert (inner' = inner) by congruence. subst inner'.
    assert (template0 = template) by congruence. subst template0.
    exists template'. now split.
  - unfold node_id. rewrite Hid. intros H.
    specialize (H nid eq_refl). congruence.
Qed.

Lemma tweak_nodes_ok (t : dict) (nodes : list pyval) :
  tweak_map t = true -> forallb (node_ok t) nodes = true ->
  exists nodes',
    tweak_nodes t nodes = (nodes', Ok tt) /\ Forall2 (tweaked t) nodes nodes'.
Proof.
  intros Hmap. induction nodes as [|node rest IH]; simpl; intros Hok.
  - exists []. now split.
  - apply andb_true_iff in Hok as [Hnode Hrest].
    destruct (tweak_node_ok _ _ Hmap Hnode) as [node' [Hrun Htw]].
    destruct (IH Hrest) as [rest' [Hruns Hall]].
    rewrite Hrun, Hruns. exists (node' :: rest'). split; auto.
Qed.

Lemma Forall2_nth_error {A B : Type} (R : A -> B -> Prop)
    (xs : list A) (ys : list B) (i : nat) (x : A) :
  Forall2 R xs ys -> nth_error xs i = Some x ->
  exists y, nth_error ys i = Some y /\ R x y.
Proof.
  intros Hall. revert i. induction Hall as [|x0 y0 xs ys Hxy _ IH];
    intros [|i]; simpl; try discriminate.
  - intros H. injection H as <-. eauto.
  - apply IH.
Qed.

Lemma Forall2_same_length {A B : Type} (R : A -> B -> Prop)
    (xs : list A) (ys : list B) :
  Forall2 R xs ys -> List.length ys = List.length xs.
Proof. induction 1; simpl; congruence. Qed.

(** Where [validate_input] finds the nodes, [store_nodes] puts them back, and
    [validate_input] finds them again. *)
Lemma validate_input_store (g t : dict) (nodes nodes' : list pyval) :
  validate_input (PDict g) (PDict t) = Ok nodes ->
  List.length nodes' = List.length nodes ->
  validate_input (PDict (store_nodes g nodes')) (PDict t) = Ok nodes'.
Proof.
  unfold validate_input, store_nodes. simpl negb. cbv iota.
  destruct (get_default g "data" (PDict [])) as [| | | | | |dd] eqn:Hdata;
    try discriminate.
  simpl dot_get. cbv iota.
  destruct (truthy (get_default dd "nodes" PNone)) eqn:Htruthy.
  - destruct (get_default dd "nodes" PNone) as [| | | | |l|] eqn:Hunder;
      try discriminate.
    intros H Hlen. injection H as ->.
    unfold get_default at 1. rewrite DictFacts.lookup_assign_same.
    simpl dot_get. cbv iota.
    unfold get_default at 1 2. rewrite DictFacts.lookup_assign_same.
    destruct nodes' as [|n' ns']; [|reflexivity].
    destruct nodes; [discriminate Htruthy | discriminate Hlen].
  - intros H Hlen.
    assert (Hdata' :
              get_default (assign g "nodes" (PList nodes')) "data" (PDict [])
              = PDict dd).
    { unfold get_default in *.
      rewrite DictFacts.lookup_assign_other by discriminate. exact Hdata. }
    rewrite Hdata'. simpl dot_get. cbv iota. rewrite Htruthy.
    unfold get_default. now rewrite DictFacts.lookup_assign_same.
Qed.

Lemma process_tweaks_runs (g t : dict) (nodes : list pyval) :
  validate_input (PDict g) (PDict t) = Ok nodes ->
  tweak_map t = true -> forallb (node_ok t) nodes = true ->
  exists nodes',
    process_tweaks (PDict g) (PDict t)
    = (PDict (store_nodes g nodes'), Ok (PDict (store_nodes g nodes'))) /\
    validate_input (PDict (store_nodes g nodes')) (PDict t) = Ok nodes' /\
    Forall2 (tweaked t) nodes nodes'.
Proof.
  intros Hval Hmap Hok.
  destruct (tweak_nodes_ok _ _ Hmap Hok) as [nodes' [Hrun Hall]].
  exists nodes'. split; [|split; [|exact Hall]].
  - unfold process_tweaks. now rewrite Hval, Hrun.
  - eapply validate_input_store; eauto.
    eapply Forall2_same_length; eauto.
Qed.

Lemma effective_false (name : string) (value : pyval) :
  name = "" \/ truthy value = false -> effective name value = false.
Proof.
  unfold effective. intros [-> | ->]; [reflexivity|].
  apply andb_false_r.
Qed.

Lemma effective_true (name : string) (value : pyval) :
  name <> "" -> truthy value = true -> effective name value = true.
Proof.
  unfold effective. intros Hne ->. apply String.eqb_neq in Hne.
  now rewrite Hne.
Qed.

(** C1 (as amended).  On a description whose node list [validate_input]
    finds, whose tweaked nodes keep dicts under ["data"] and [data["node"]]
    and a dict under every template parameter that an override names, and
    for a tweak map (node id to dict of overrides), [process_tweaks] returns
    the description without raising.  In every node whose id has an entry
    in the tweak map, each override with a non-empty name and a truthy value
    whose name is a key of the node's template is then the ["value"] of that
    template entry; the template has the same keys as before, so a parameter
    absent from it is not added; and a template entry that no such override
    names is what it was.  A node without an entry in the tweak map is
    unchanged. *)
Theorem process_tweaks_applies_truthy_overrides (graph_data tweaks : pyval) :
  well_shaped graph_data tweaks = true ->
  exists graph_data' nodes nodes' t,
    tweaks = PDict t /\
    process_tweaks graph_data tweaks = (graph_data', Ok graph_data') /\
    validate_input graph_data tweaks = Ok nodes /\
    validate_input graph_data' tweaks = Ok nodes' /\
    List.length nodes' = List.length nodes /\
    forall i node,
      nth_error nodes i = Some node ->
      exists node',
        nth_error nodes' i = Some node' /\
        node_id node' = node_id node /\
        ((forall nid, node_id node = Some nid -> lookup t nid = None) ->
         node' = node) /\
        forall nid items template,
          node_id node = Some nid ->
          lookup t nid = Some (PDict items) ->
          template_of node = Some template ->
          exists template',
            template_of node' = Some template' /\
            (forall name value,
                In (name, value) items ->
                name <> "" -> truthy value = true ->
                mem template name = true ->
                value_of template' name = Some value) /\
            (forall name, mem template' name = mem template name) /\
            (forall name,
                (forall value,
                    In (name, value) items ->
                    name = "" \/ truthy value = false) ->
                lookup template' name = lookup template name).
Proof.
  unfold well_shaped. intros Hshape.
  destruct (validate_input graph_data tweaks) as [nodes|] eqn:Hval;
    [|discriminate].
  destruct tweaks as [| | | | | |t]; try discriminate.
  apply andb_true_iff in Hshape as [Hmap Hok].
  assert (Hg : exists g, graph_data = PDict g).
  { destruct graph_data; try discriminate Hval. eauto. }
  destruct Hg as [g ->].
  destruct (process_tweaks_runs _ _ Hval Hmap Hok)
    as [nodes' [Hrun [Hval' Hall]]].
  exists (PDict (store_nodes g nodes')), nodes, nodes', t.
  repeat (split; [first [reflexivity | assumption
                        | eapply Forall2_same_length; eassumption]|]).
  intros i node Hnth.
  destruct (Forall2_nth_error i Hall Hnth) as [node' [Hnth' Htw]].
  destruct Htw as [Hid [Hentry Hsame]].
  exists node'. repeat (split; [assumption|]).
  intros nid items template Hnid Hlook Htpl.
  destruct (Hentry nid items template Hnid Hlook Htpl)
    as [template' [Htpl' [Hkeys Hskip Happ]]].
  destruct (tweak_map_entry _ _ Hmap Hlook) as [items' [Heq Honce]].
  injection Heq as <-.
  exists template'. split; [assumption|]. split; [|split].
  - intros name value Hin Hname Htruthy Hmem.
    apply Happ; auto using effective_true.
  - intros name. now apply DictFacts.lookup_keys.
  - intros name Hname. apply Hskip.
    intros value Hin. apply effective_false. now apply Hname.
Qed.

Lemma process_tweaks_applies_truthy_overrides_witness :
  well_shaped
    (flow_of [one_node [("temperature", PDict [("value", PInt 1)])]])
    (tweak_for "temperature" (PInt 9)) = true /\
  exists graph_data',
    process_tweaks
      (flow_of [one_node [("temperature", PDict [("value", PInt 1)])]])
      (tweak_for "temperature" (PInt 9)) = (graph_data', Ok graph_data').
Proof.
  split; [reflexivity|].
  destruct (process_tweaks_applies_truthy_overrides
              (flow_of [one_node [("temperature", PDict [("value", PInt 1)])]])
              (tweak_for "temperature" (PInt 9)) eq_refl)
    as [graph_data' [nodes [nodes' [t [_ [Hrun _]]]]]].
  exists graph_data'. exact Hrun.
Defined.

(** C1 as stated fails twice on the code.  An override whose value is falsy
    (here [0]) is skipped by the guard of the loop: the call returns, the
    node and the parameter exist, and the parameter keeps its value.  And a
    description whose node list is found can still make the call raise:
    here the template entry named by the override is a string. *)
Lemma process_tweaks_skips_falsy_and_can_raise :
  (let graph_data :=
     flow_of [one_node [("temperature", PDict [("value", PInt 1)])]] in
   let tweaks := tweak_for "temperature" (PInt 0) in
   validate_input graph_data tweaks
   = Ok [one_node [("temperature", PDict [("value", PInt 1)])]] /\
   process_tweaks graph_data tweaks = (graph_data, Ok graph_data) /\
   value_of [("temperature", PDict [("value", PInt 1)])] "temperature"
   <> Some (PInt 0)) /\
  (let graph_data := flow_of [one_node [("_type", PStr "OpenAI")]] in
   let tweaks := tweak_for "_type" (PStr "ChatOpenAI") in
   validate_input graph_data tweaks
   = Ok [one_node [("_type", PStr "OpenAI")]] /\
   process_tweaks graph_data tweaks
   = (graph_data,
      Err (Raise TypeError "'str' object does not support item assignment"))).
Proof.
  split; cbv zeta.
  - split; [reflexivity|]. split; [reflexivity|]. discriminate.
  - split; reflexivity.
Qed.

(** What [validate_input] does as the error message and the docstring say:
    it rejects an argument that is not a dict, a rejected call leaves the
    description as it was, and a non-empty list under ["data"] is the list
    returned whatever stands at the top level. *)
Lemma validate_input_rejects_non_dicts (graph_data tweaks : pyval) :
  is_dict graph_data = false \/ is_dict tweaks = false ->
  validate_input graph_data tweaks = Err (Raise ValueError msg_not_dicts).
Proof.
  intros [H | H].
  - destruct graph_data; try reflexivity. discriminate.
  - destruct graph_data; try reflexivity. simpl. now rewrite H.
Qed.

Lemma process_tweaks_rejects_before_mutation (graph_data tweaks : pyval)
    (e : exn) :
  validate_input graph_data tweaks = Err e ->
  process_tweaks graph_data tweaks = (graph_data, Err e).
Proof. unfold process_tweaks. now intros ->. Qed.

Lemma validate_input_prefers_data_nodes (g t section : dict) (node : pyval)
    (nodes : list pyval) :
  lookup g "data" = Some (PDict section) ->
  lookup section "nodes" = Some (PList (node :: nodes)) ->
  validate_input (PDict g) (PDict t) = Ok (node :: nodes).
Proof.
  intros Hdata Hnodes. unfold validate_input, get_default. simpl negb.
  cbv iota. rewrite Hdata. simpl dot_get. unfold get_default.
  now rewrite Hnodes.
Qed.

(** C9.  [validate_input] takes the nodes from under ["data"] only when that
    entry is truthy: an empty list there is passed over.  A description whose
    only node list is the empty one under ["data"] is rejected with the very
    message that asks for a list of nodes under ["data"]; with a second list
    at the top level, that one is returned; and a ["data"] entry that is not
    a dict raises [AttributeError], not the [ValueError] of the function. *)
Theorem validate_input_passes_over_empty_list :
  validate_input (PDict [("data", PDict [("nodes", PList [])])]) (PDict [])
  = Err (Raise ValueError msg_no_nodes) /\
  validate_input
    (PDict [("data", PDict [("nodes", PList [])]);
            ("nodes", PList [one_node []])])
    (PDict [])
  = Ok [one_node []] /\
  validate_input (PDict [("data", PNone); ("nodes", PList [one_node []])])
    (PDict [])
  = Err (Raise AttributeError "'NoneType' object has no attribute 'get'").
Proof. repeat split. Qed.

End TweakFacts.

(** ** The trace formatter *)

Module TraceFacts.

Lemma format_step_block (output : list string) (st : step) :
  format_step output st = (output ++ spec_block st)%list.
Proof.
  destruct st as [action answer]. unfold format_step, spec_block, append_line.
  destruct (contains "Action" (log action));
    destruct (contains "Action Input" (log action)); simpl;
    repeat rewrite <- app_assoc; reflexivity.
Qed.

Lemma fold_format_step (actions : list step) (output : list string) :
  fold_left format_step actions output
  = (output ++ flat_map spec_block actions)%list.
Proof.
  revert output. induction actions as [|st rest IH]; intros output; simpl.
  - now rewrite app_nil_r.
  - now rewrite IH, format_step_block, <- app_assoc.
Qed.

Lemma prefix_app (a b s : string) :
  prefix (a ++ b) s = true -> prefix a s = true.
Proof.
  revert s. induction a as [|c a IH]; intros s.
  - intros _. now destruct s.
  - destruct s as [|c' s]; simpl; [discriminate|].
    destruct (ascii_dec c c'); [apply IH | discriminate].
Qed.

Lemma contains_app (a b s : string) :
  contains (a ++ b) s = true -> contains a s = true.
Proof.
  induction s as [|c s IH].
  - apply prefix_app.
  - cbn [contains]. intros H. apply orb_true_iff in H as [H | H].
    + apply prefix_app in H. now rewrite H.
    + rewrite (IH H). apply orb_true_r.
Qed.

(** C8.  [format_actions] is a total function of the list it is given.  The
    empty list gives the empty string.  In general the result is the blocks
    of the pairs, in order, joined with line feeds, a block being the log
    line, then the tool and tool-input lines when the log mentions no
    action marker, then the answer line, then an empty line.  For one pair
    whose log does not contain "Action" this is the four lines and a final
    line feed. *)
Theorem format_actions_blocks :
  format_actions [] = "" /\
  (forall actions : list step,
      format_actions actions = String.concat nl (flat_map spec_block actions)) /\
  (forall (action : AgentAction) (answer : string),
      contains "Action" (log action) = false ->
      format_actions [(action, answer)]
      = "Log: " ++ log action ++ nl
         ++ "Tool: " ++ tool action ++ nl
         ++ "Tool Input: " ++ tool_input action ++ nl
         ++ "Answer: " ++ answer ++ nl).
Proof.
  split; [reflexivity|]. split.
  - intros actions. unfold format_actions. now rewrite fold_format_step.
  - intros action answer Hno.
    assert (Hno' : contains "Action Input" (log action) = false).
    { destruct (contains "Action Input" (log action)) eqn:E; auto.
      apply (contains_app "Action" " Input") in E. congruence. }
    unfold format_actions. simpl fold_left. unfold format_step, append_line.
    rewrite Hno, Hno'. reflexivity.
Qed.

Lemma format_actions_blocks_witness :
  contains "Action" "I should look this up" = false /\
  format_actions
    [({| tool := "Search"; tool_input := "6 x 7";
         log := "I should look this up" |}, "42")]
  = "Log: I should look this up" ++ nl
     ++ "Tool: Search" ++ nl
     ++ "Tool Input: 6 x 7" ++ nl
     ++ "Answer: 42" ++ nl.
Proof.
  split; [reflexivity|].
  exact (proj2 (proj2 format_actions_blocks)
           {| tool := "Search"; tool_input := "6 x 7";
              log := "I should look this up" |} "42" eq_refl).
Defined.

End TraceFacts.

(** ** Memory reconciliation *)

Module MemoryFacts.
Import Executor.

Section WithMemoryPolicy.

Variable get_memory_key : attrs -> option string.

Lemma fix_memory_inputs_without_memory (o : attrs) :
  has_memory o = false -> fix_memory_inputs get_memory_key o = (o, Ok tt).
Proof.
  unfold has_memory, fix_memory_inputs.
  destruct (memory o) as [[m|]|]; [discriminate | reflexivity | reflexivity].
Qed.

Lemma fix_memory_inputs_with_memory (o : attrs) (m : Memory)
    (vars : list string) :
  memory o = Some (Some m) -> declared_inputs o = Ok vars ->
  fix_memory_inputs get_memory_key o
  = (if in_list (memory_key m) vars then o
     else rewrite_memory_key get_memory_key o, Ok tt).
Proof.
  unfold fix_memory_inputs, declared_inputs. intros -> Hvars.
  destruct (input_variables o) as [vars'|].
  - injection Hvars as ->. now destruct (in_list (memory_key m) vars).
  - rewrite Hvars. now destruct (in_list (memory_key m) vars).
Qed.

Lemma fix_memory_inputs_returns (o : attrs) :
  has_memory o = false \/ declares_inputs o = true ->
  exists o', fix_memory_inputs get_memory_key o = (o', Ok tt).
Proof.
  intros [H | H].
  - exists o. now apply fix_memory_inputs_without_memory.
  - destruct (has_memory o) eqn:Hmem.
    + unfold has_memory in Hmem. unfold declares_inputs in H.
      destruct (memory o) as [[m|]|] eqn:Hm; try discriminate.
      destruct (declared_inputs o) as [vars|] eqn:Hvars; [|discriminate].
      rewrite (fix_memory_inputs_with_memory o Hm Hvars). eauto.
    + exists o. now apply fix_memory_inputs_without_memory.
Qed.


Lemma declared_inputs_update (o : attrs) (k : string) :
  declared_inputs (update_memory_keys o k) = declared_inputs o.
Proof. reflexivity. Qed.


End WithMemoryPolicy.




(** Without the assumption on the policy the second call can undo the
    first: a policy that answers from the memory key alone flips the key
    at every call when neither name is a declared input. *)
Remark fix_memory_inputs_twice_under_flip_policy :
  fst (fix_memory_inputs flip_policy question_object)
  = update_memory_keys question_object "history" /\
  fst (fix_memory_inputs flip_policy
         (fst (fix_memory_inputs flip_policy question_object)))
  = question_object.
Proof. split; reflexivity. Qed.


End MemoryFacts.

(** ** The executor *)

Module ExecutorFacts.
Import Executor MemoryFacts.

Section WithMemoryPolicy.

Variable get_memory_key : attrs -> option string.

(** [build_chat_input] keeps the last key that passes the test. *)
Lemma fold_keeps_last (message : string) (keep : string -> bool)
    (keys : list string) (start : chat_input) :
  fold_left
    (fun chat_input key => if keep key then InDict key message else chat_input)
    keys start
  = match rev (filter keep keys) with
    | [] => start
    | key :: _ => InDict key message
    end.
Proof.
  revert start. induction keys as [|k keys IH]; intros start; simpl.
  - reflexivity.
  - rewrite IH. destruct (keep k); [|reflexivity].
    simpl rev. destruct (rev (filter keep keys)); reflexivity.
Qed.

Lemma build_chat_input_keys (o : attrs) (message : string)
    (keys : list string) :
  input_keys o = Some keys ->
  build_chat_input o message
  = match rev (filter (free_key o) keys) with
    | [] => InNone
    | key :: _ => InDict key message
    end.
Proof.
  unfold build_chat_input. intros ->.
  apply (fold_keeps_last message (free_key o)).
Qed.

Lemma prepare_chat_input (o : attrs) (message : string) :
  snd (prepare o message) = build_chat_input o message.
Proof.
  unfold prepare. simpl.
  destruct (verbose o); reflexivity.
Qed.

Lemma prepare_keeps_inputs (o : attrs) (message : string) :
  memory (fst (prepare o message)) = memory o /\
  declared_inputs (fst (prepare o message)) = declared_inputs o.
Proof.
  unfold prepare. simpl.
  destruct (verbose o); simpl; destruct (return_intermediate_steps o);
    now split.
Qed.

(** When reconciliation returns, the first invocation is [__call__] on the
    input that [build_chat_input] made. *)
Lemma get_result_and_thought_calls (h : handle) (message : string)
    (o : attrs) :
  fix_memory_inputs get_memory_key (fst (prepare (state h) message))
  = (o, Ok tt) ->
  exists o' rest r,
    get_result_and_thought get_memory_key h message
    = (o', ViaCall (build_chat_input (state h) message) :: rest, r).
Proof.
  intros Hfix. unfold get_result_and_thought, try_block.
  rewrite <- prepare_chat_input.
  destruct (prepare (state h) message) as [o0 input]. simpl in *.
  rewrite Hfix. unfold invoke.
  destruct (call h o input) as [[o1 text1] [out|exc]]; simpl.
  - destruct (normalise o1 out text1); eauto.
  - destruct (is_ValueError exc); simpl.
    + destruct (run h) as [run_method|]; simpl; [|eauto].
      destruct (run_method o1 input) as [[o2 text2] [out|exc2]]; simpl.
      * destruct (normalise o2 out (text1 ++ text2)); eauto.
      * eauto.
    + eauto.
Qed.

Lemma try_block_unfold (h : handle) (message : string) :
  try_block get_memory_key h message
  = match fix_memory_inputs get_memory_key (fst (prepare (state h) message))
    with
    | (o, Err e) => (o, [], Err e)
    | (o, Ok _) =>
        match invoke h o (build_chat_input (state h) message) with
        | (s, Err e) => (object s, invoked s, Err e)
        | (s, Ok out) =>
            (object s, invoked s, normalise (object s) out (printed s))
        end
    end.
Proof.
  unfold try_block. rewrite <- prepare_chat_input.
  destruct (prepare (state h) message) as [o0 input]. simpl.
  destruct (fix_memory_inputs get_memory_key o0) as [o [[]|e]];
    [|reflexivity].
  destruct (invoke h o input) as [s [out|e]]; reflexivity.
Qed.

Lemma get_result_and_thought_unfold (h : handle) (message : string) :
  get_result_and_thought get_memory_key h message
  = match try_block get_memory_key h message with
    | (o, calls, r) => (o, calls, wrap_failure r)
    end.
Proof.
  unfold get_result_and_thought.
  destruct (try_block get_memory_key h message) as [[o calls] [r|exc]];
    reflexivity.
Qed.

(** C2.  Whatever [get_result_and_thought] raises is a [ValueError] whose
    text is "Error: " followed by the text of the exception that left the
    [try] block.  This holds for the exception of each step that can fail:
    memory reconciliation, the invocation (the first attempt when its
    exception is not a [ValueError], a missing [run], or the second
    attempt), and the normalisation of the returned value. *)
Theorem get_result_and_thought_raises_one_shape (h : handle)
    (message : string) :
  (forall o calls e,
      get_result_and_thought get_memory_key h message = (o, calls, Err e) ->
      exists exc,
        try_block get_memory_key h message = (o, calls, Err exc) /\
        e = Raise ValueError ("Error: " ++ exn_str exc)) /\
  (forall o exc,
      fix_memory_inputs get_memory_key (fst (prepare (state h) message))
      = (o, Err exc) ->
      get_result_and_thought get_memory_key h message
      = (o, [], Err (wrapped exc))) /\
  (forall o s exc,
      fix_memory_inputs get_memory_key (fst (prepare (state h) message))
      = (o, Ok tt) ->
      invoke h o (build_chat_input (state h) message) = (s, Err exc) ->
      get_result_and_thought get_memory_key h message
      = (object s, invoked s, Err (wrapped exc))) /\
  (forall o s out exc,
      fix_memory_inputs get_memory_key (fst (prepare (state h) message))
      = (o, Ok tt) ->
      invoke h o (build_chat_input (state h) message) = (s, Ok out) ->
      normalise (object s) out (printed s) = Err exc ->
      get_result_and_thought get_memory_key h message
      = (object s, invoked s, Err (wrapped exc))) /\
  (forall o input o1 text1 exc,
      call h o input = (o1, text1, Err exc) ->
      snd (invoke h o input)
      = if is_ValueError exc then
          match run h with
          | Some run_method => snd (run_method o1 input)
          | None => Err (no_attribute o1 "run")
          end
        else Err exc).
Proof.
  repeat split.
  - intros o calls e. rewrite get_result_and_thought_unfold.
    destruct (try_block get_memory_key h message) as [[o' calls'] [r|exc]];
      simpl; intros H; [discriminate|].
    injection H as -> -> <-. now exists exc.
  - intros o exc Hfix.
    rewrite get_result_and_thought_unfold, try_block_unfold, Hfix.
    reflexivity.
  - intros o s exc Hfix Hinv.
    rewrite get_result_and_thought_unfold, try_block_unfold, Hfix, Hinv.
    reflexivity.
  - intros o s out exc Hfix Hinv Hnorm.
    rewrite get_result_and_thought_unfold, try_block_unfold, Hfix, Hinv.
    now rewrite Hnorm.
  - intros o input o1 text1 exc Hcall. unfold invoke. rewrite Hcall.
    destruct (is_ValueError exc); [|reflexivity].
    destruct (run h) as [run_method|]; [|reflexivity].
    now destruct (run_method o1 input) as [[o2 text2] r].
Qed.

(** C3.  When [__call__] raises a [ValueError] and the object has [run], the
    executor calls [run] once, after the one [__call__] and with the same
    input; when [run] returns, the result and the thought are made from what
    [run] returned and from what both attempts printed, and the first
    exception is not raised.  A returned value that is not a dict is the
    result itself. *)
Theorem get_result_and_thought_falls_back_to_run (h : handle)
    (message : string) (o o1 o2 : attrs) (text1 text2 : string) (exc : exn)
    (run_method : method) (out : output) :
  fix_memory_inputs get_memory_key (fst (prepare (state h) message))
  = (o, Ok tt) ->
  call h o (build_chat_input (state h) message) = (o1, text1, Err exc) ->
  is_ValueError exc = true ->
  run h = Some run_method ->
  run_method o1 (build_chat_input (state h) message) = (o2, text2, Ok out) ->
  get_result_and_thought get_memory_key h message
  = (o2,
     [ViaCall (build_chat_input (state h) message);
      ViaRun (build_chat_input (state h) message)],
     wrap_failure (normalise o2 out (text1 ++ text2))) /\
  (forall v, out = OutObj v ->
     get_result_and_thought get_memory_key h message
     = (o2,
        [ViaCall (build_chat_input (state h) message);
         ViaRun (build_chat_input (state h) message)],
        Ok (Data v, text1 ++ text2))).
Proof.
  intros Hfix Hcall Hvalue Hrun Hran.
  assert (Hinv :
            invoke h o (build_chat_input (state h) message)
            = ({| object := o2; printed := text1 ++ text2;
                  invoked := [ViaCall (build_chat_input (state h) message);
                              ViaRun (build_chat_input (state h) message)] |},
               Ok out)).
  { unfold invoke. now rewrite Hcall, Hvalue, Hrun, Hran. }
  assert (Hall :
            get_result_and_thought get_memory_key h message
            = (o2,
               [ViaCall (build_chat_input (state h) message);
                ViaRun (build_chat_input (state h) message)],
               wrap_failure (normalise o2 out (text1 ++ text2)))).
  { rewrite get_result_and_thought_unfold, try_block_unfold, Hfix, Hinv.
    reflexivity. }
  split; [exact Hall|].
  intros v ->. exact Hall.
Qed.


(** C10.  When the object has [input_keys], the input built is the dict with
    the last of the keys that are neither the memory key nor "chat_history";
    when every key is the memory key or "chat_history", the input stays
    [None], and [None] is what [__call__] receives. *)
Theorem build_chat_input_keeps_last_key_or_none (o : attrs)
    (message : string) (keys : list string) :
  input_keys o = Some keys ->
  (forall front key,
      filter (free_key o) keys = (front ++ [key])%list ->
      build_chat_input o message = InDict key message) /\
  ((forall key,
       In key keys -> key = current_memory_key o \/ key = "chat_history") ->
   build_chat_input o message = InNone /\
   forall h,
     state h = o ->
     exists o' rest r,
       get_result_and_thought get_memory_key h message
       = (o', ViaCall InNone :: rest, r)).
Proof.
  intros Hkeys. split.
  - intros front key Hlast.
    rewrite (build_chat_input_keys o message Hkeys), Hlast.
    now rewrite rev_app_distr.
  - intros Hall.
    assert (Hnone : build_chat_input o message = InNone).
    { rewrite (build_chat_input_keys o message Hkeys).
      replace (filter (free_key o) keys) with (@nil string); [reflexivity|].
      symmetry. clear Hkeys.
      induction keys as [|k keys IH]; [reflexivity|]. simpl.
      assert (Hk : free_key o k = false).
      { unfold free_key, in_list. cbn [existsb].
        destruct (Hall k (or_introl eq_refl)) as [-> | ->].
        - now rewrite String.eqb_refl.
        - rewrite (String.eqb_refl "chat_history").
          now rewrite orb_true_r. }
      rewrite Hk. apply IH. intros key Hin. apply Hall. now right. }
    split; [exact Hnone|].
    intros h <-.
    destruct (prepare_keeps_inputs (state h) message) as [Hmem Hdecl].
    destruct (fix_memory_inputs_returns get_memory_key
                (fst (prepare (state h) message))) as [o' Hfix].
    { right. unfold declares_inputs. rewrite Hdecl.
      unfold declared_inputs, fallback_input_variables. rewrite Hkeys.
      destruct (input_variables (state h)); [reflexivity|].
      now destruct (prompt (state h)). }
    rewrite <- Hnone.
    eapply get_result_and_thought_calls; eauto.
Qed.

End WithMemoryPolicy.

Lemma get_result_and_thought_raises_one_shape_witness :
  exists o,
    get_result_and_thought no_replacement broken_handle "hello"
    = (o, [ViaCall (InDict "question" "hello")],
       Err (Raise ValueError "Error: 'text'")).
Proof.
  destruct (get_result_and_thought_raises_one_shape no_replacement
              broken_handle "hello") as [_ [_ [Hinvoke _]]].
  eexists.
  exact (Hinvoke _ _ (Raise KeyError "'text'") eq_refl eq_refl).
Defined.

Lemma get_result_and_thought_falls_back_to_run_witness :
  exists o,
    get_result_and_thought no_replacement strict_handle "hello"
    = (o,
       [ViaCall (InDict "question" "hello");
        ViaRun (InDict "question" "hello")],
       Ok (Data (PStr "hello"), "> Entering new chain")).
Proof.
  eexists.
  exact (proj1
           (get_result_and_thought_falls_back_to_run no_replacement
              strict_handle "hello" (exc := Raise ValueError _)
              eq_refl eq_refl eq_refl eq_refl eq_refl)).
Defined.


Lemma build_chat_input_keeps_last_key_or_none_witness :
  filter (free_key agent_object)
    ["input"; "history"; "question"; "chat_history"]
  = ["input"; "question"] /\
  build_chat_input agent_object "hello" = InDict "question" "hello".
Proof.
  split; [reflexivity|].
  exact (proj1
           (build_chat_input_keeps_last_key_or_none no_replacement
              agent_object "hello" eq_refl)
           ["input"] "question" eq_refl).
Defined.

End ExecutorFacts.

(** ** The loader *)

Module LoaderFacts.
Import Loader.

Section WithCollaborators.

Variable get_memory_key : attrs -> option string.
Variable read_json : string -> result pyval.
Variable graph : Type.
Variable Graph : pyval -> pyval -> result graph.
Variable build_graph : graph -> result handle.

(** C5 (as amended).  A source that is neither a path, a [str] nor a dict is
    rejected with a [TypeError] and nothing is constructed or built.  A path
    (or a [str]) is read and parsed, and the document found is loaded.  A
    dict is loaded as it is.  The document must carry its graph under
    ["data"]: without that key the load fails with a [KeyError] and nothing
    is constructed; with a ["data"] section that has ["nodes"] and
    ["edges"], the graph is constructed from those two. *)
Theorem load_flow_from_json_sources :
  (forall v tweaks build,
      is_str v = false -> is_dict v = false ->
      load_flow_from_json get_memory_key read_json Graph build_graph
        (FromValue v) tweaks build
      = ([], Err (Raise TypeError msg_bad_source))) /\
  (forall path tweaks build,
      load_flow_from_json get_memory_key read_json Graph build_graph
        (FromPath path) tweaks build
      = match read_json path with
        | Err e => ([Opened path], Err e)
        | Ok flow_graph =>
            load_graph get_memory_key Graph build_graph [Opened path]
              flow_graph tweaks build
        end /\
      load_flow_from_json get_memory_key read_json Graph build_graph
        (FromValue (PStr path)) tweaks build
      = load_flow_from_json get_memory_key read_json Graph build_graph
          (FromPath path) tweaks build) /\
  (forall d tweaks build,
      load_flow_from_json get_memory_key read_json Graph build_graph
        (FromValue (PDict d)) tweaks build
      = load_graph get_memory_key Graph build_graph [] (PDict d) tweaks build) /\
  (forall log d tweaks build,
      lookup d "data" = None ->
      load_graph get_memory_key Graph build_graph log (PDict d) tweaks build
      = (log, Err (Raise KeyError "'data'"))) /\
  (forall log d section nodes edges g,
      lookup d "data" = Some (PDict section) ->
      lookup section "nodes" = Some nodes ->
      lookup section "edges" = Some edges ->
      Graph nodes edges = Ok g ->
      load_graph get_memory_key Graph build_graph log (PDict d) PNone false
      = ((log ++ [Constructed nodes edges])%list, Ok (Unbuilt g))).
Proof.
  repeat split.
  - intros v tweaks build Hstr Hdict.
    destruct v; try discriminate; reflexivity.
  - intros log d tweaks build Hdata.
    unfold load_graph, graph_parts, subscript. now rewrite Hdata.
  - intros log d section nodes edges g Hdata Hnodes Hedges Hgraph.
    unfold load_graph, graph_parts, subscript. rewrite Hdata. simpl.
    rewrite Hnodes. simpl. rewrite Hedges. simpl. now rewrite Hgraph.
Qed.

End WithCollaborators.

Lemma load_flow_from_json_sources_witness :
  load_flow_from_json no_replacement no_file pair_graph build_pair
    (FromValue (PInt 42)) PNone true
  = ([], Err (Raise TypeError msg_bad_source)).
Proof.
  exact (proj1
           (load_flow_from_json_sources no_replacement no_file
              pair_graph build_pair)
           (PInt 42) PNone true eq_refl eq_refl).
Defined.

(** C5 as stated fails on a document that gives [nodes] and [edges] at the
    top level: [flow_graph["data"]] raises [KeyError], from a dict as from a
    file, and no graph is constructed. *)
Lemma load_flow_from_json_requires_data :
  load_flow_from_json no_replacement no_file pair_graph build_pair
    (FromValue (PDict [("nodes", PList []); ("edges", PList [])])) PNone true
  = ([], Err (Raise KeyError "'data'")) /\
  load_flow_from_json no_replacement
    (fun _ => Ok (PDict [("nodes", PList []); ("edges", PList [])]))
    pair_graph build_pair (FromPath "flow.json") PNone true
  = ([Opened "flow.json"], Err (Raise KeyError "'data'")).
Proof. split; reflexivity. Qed.

End LoaderFacts.

(** ** More on tweak application *)

Module TweakLaws.
Import DictFacts Tweaks TweakFacts.

Lemma assign_lookup_same (d : dict) (k : string) (v : pyval) :
  lookup d k = Some v -> assign d k v = d.
Proof.
  induction d as [|[k0 v0] d IH]; simpl; [discriminate|].
  destruct (k0 =? k) eqn:E.
  - intros H. now injection H as ->.
  - intros H. now rewrite IH.
Qed.

(** Putting back the list that [validate_input] found changes nothing. *)
Lemma store_nodes_same (g t : dict) (nodes : list pyval) :
  validate_input (PDict g) (PDict t) = Ok nodes -> store_nodes g nodes = g.
Proof.
  unfold validate_input, store_nodes. simpl negb. cbv iota.
  destruct (get_default g "data" (PDict [])) as [| | | | | |dd] eqn:Hdata;
    try discriminate.
  simpl dot_get. cbv iota.
  destruct (truthy (get_default dd "nodes" PNone)) eqn:Htruthy.
  - destruct (get_default dd "nodes" PNone) as [| | | | |l|] eqn:Hunder;
      try discriminate.
    intros H. injection H as ->.
    assert (Hnodes : lookup dd "nodes" = Some (PList nodes)).
    { unfold get_default in Hunder.
      destruct (lookup dd "nodes"); [congruence | discriminate]. }
    assert (Hd : lookup g "data" = Some (PDict dd)).
    { eapply get_default_dict_lookup; eauto. }
    rewrite (assign_lookup_same _ _ Hnodes).
    now apply assign_lookup_same.
  - unfold get_default at 1.
    destruct (lookup g "nodes") as [v|] eqn:Hnodes; [|discriminate].
    destruct v; try discriminate.
    intros H. injection H as ->. now apply assign_lookup_same.
Qed.

Lemma tweak_node_unmatched (t : dict) (node : pyval) :
  unmatched t node = true -> tweak_node t node = (node, Ok tt).
Proof.
  unfold unmatched, node_id, tweak_node.
  destruct node as [| | | | | |n]; try reflexivity.
  destruct (lookup n "id") as [[| | | |nid| |]|]; try reflexivity.
  intros H. apply negb_true_iff in H. now rewrite H.
Qed.

Lemma tweak_nodes_unmatched (t : dict) (nodes : list pyval) :
  forallb (unmatched t) nodes = true -> tweak_nodes t nodes = (nodes, Ok tt).
Proof.
  induction nodes as [|node rest IH]; simpl; [reflexivity|].
  intros H. apply andb_true_iff in H as [Hnode Hrest].
  now rewrite (tweak_node_unmatched _ _ Hnode), (IH Hrest).
Qed.

(** X1.  A tweak map that has no truthy entry under the id of any node (the
    empty tweak map among them) leaves the description exactly as it was,
    and the call returns it, whatever the nodes look like. *)
Theorem process_tweaks_without_matching_entry (g t : dict)
    (nodes : list pyval) :
  validate_input (PDict g) (PDict t) = Ok nodes ->
  forallb (unmatched t) nodes = true ->
  process_tweaks (PDict g) (PDict t) = (PDict g, Ok (PDict g)).
Proof.
  intros Hval Hnone. unfold process_tweaks.
  rewrite Hval, (tweak_nodes_unmatched _ _ Hnone).
  now rewrite (store_nodes_same _ _ Hval).
Qed.

Lemma process_tweaks_without_matching_entry_witness :
  process_tweaks
    (flow_of [one_node [("_type", PStr "OpenAI")]; PInt 3])
    (PDict [("other", PDict [("_type", PStr "x")])])
  = (flow_of [one_node [("_type", PStr "OpenAI")]; PInt 3],
     Ok (flow_of [one_node [("_type", PStr "OpenAI")]; PInt 3])).
Proof.
  exact (process_tweaks_without_matching_entry
           [("nodes", PList [one_node [("_type", PStr "OpenAI")]; PInt 3]);
            ("edges", PList [])]
           [("other", PDict [("_type", PStr "x")])]
           eq_refl eq_refl).
Defined.

Lemma apply_tweaks_keeps_id (n : dict) (node_tweaks : pyval) :
  lookup (fst (apply_tweaks n node_tweaks)) "id" = lookup n "id".
Proof.
  unfold apply_tweaks.
  destruct (dot_get (get_default n "data" (PDict [])) "node" (PDict []))
    as [inner|e]; [|reflexivity].
  destruct (dot_get inner "template" PNone) as [[| | | | | |tpl]|e];
    try reflexivity.
  destruct node_tweaks as [| | | | | |items]; try reflexivity.
  destruct (tweak_template tpl items) as [tpl' r]. simpl.
  now apply lookup_assign_other.
Qed.

Lemma tweak_node_keeps_id (t : dict) (node : pyval) :
  node_id (fst (tweak_node t node)) = node_id node.
Proof.
  unfold tweak_node.
  destruct node as [| | | | | |n]; try reflexivity.
  destruct (lookup n "id") as [[| | | |nid| |]|] eqn:Hid; try reflexivity.
  destruct (truthy (get_default t nid PNone)); [|reflexivity].
  pose proof (apply_tweaks_keeps_id n (get_default t nid PNone)) as H.
  destruct (apply_tweaks n (get_default t nid PNone)) as [n' r].
  simpl in *. unfold node_id. now rewrite H.
Qed.

Lemma tweak_nodes_keep_ids (t : dict) (nodes : list pyval) :
  map node_id (fst (tweak_nodes t nodes)) = map node_id nodes.
Proof.
  induction nodes as [|node rest IH]; simpl; [reflexivity|].
  pose proof (tweak_node_keeps_id t node) as Hid.
  destruct (tweak_node t node) as [node' [[]|e]]; simpl in *.
  - destruct (tweak_nodes t rest) as [rest' r]. simpl in *. congruence.
  - congruence.
Qed.

Lemma store_nodes_elsewhere (g : dict) (nodes' : list pyval) (k : string) :
  k <> "data" -> k <> "nodes" -> lookup (store_nodes g nodes') k = lookup g k.
Proof.
  intros Hdata Hnodes. unfold store_nodes.
  destruct (get_default g "data" (PDict [])) as [| | | | | |dd];
    try reflexivity.
  destruct (truthy (get_default dd "nodes" PNone));
    apply lookup_assign_other; congruence.
Qed.

Lemma store_nodes_section (g section : dict) (nodes' : list pyval) :
  lookup g "data" = Some (PDict section) ->
  exists section',
    lookup (store_nodes g nodes') "data" = Some (PDict section') /\
    forall k, k <> "nodes" -> lookup section' k = lookup section k.
Proof.
  intros Hdata. unfold store_nodes, get_default at 1. rewrite Hdata.
  destruct (truthy (get_default section "nodes" PNone)).
  - exists (assign section "nodes" (PList nodes')). split.
    + apply lookup_assign_same.
    + intros k Hk. apply lookup_assign_other. congruence.
  - exists section. split; [|reflexivity].
    rewrite lookup_assign_other by discriminate. exact Hdata.
Qed.

(** X2.  Whether [process_tweaks] returns or raises, the description it
    leaves has its node list where it was, with as many nodes carrying the
    same ids in the same order; every entry of the description other than
    ["data"] and ["nodes"] is untouched, and so is every entry of its
    ["data"] section other than ["nodes"]: the edges are never changed. *)
Theorem process_tweaks_keeps_structure (g t : dict) (nodes : list pyval) :
  validate_input (PDict g) (PDict t) = Ok nodes ->
  exists g' nodes',
    fst (process_tweaks (PDict g) (PDict t)) = PDict g' /\
    validate_input (PDict g') (PDict t) = Ok nodes' /\
    map node_id nodes' = map node_id nodes /\
    (forall k, k <> "data" -> k <> "nodes" -> lookup g' k = lookup g k) /\
    (forall section,
        lookup g "data" = Some (PDict section) ->
        exists section',
          lookup g' "data" = Some (PDict section') /\
          forall k, k <> "nodes" -> lookup section' k = lookup section k).
Proof.
  intros Hval.
  pose proof (tweak_nodes_keep_ids t nodes) as Hids.
  exists (store_nodes g (fst (tweak_nodes t nodes))),
         (fst (tweak_nodes t nodes)).
  split; [|split; [|split; [exact Hids|split]]].
  - unfold process_tweaks. rewrite Hval.
    destruct (tweak_nodes t nodes) as [nodes' [[]|e]]; reflexivity.
  - eapply validate_input_store; [exact Hval|].
    rewrite <- (length_map node_id), Hids. apply length_map.
  - intros k. apply store_nodes_elsewhere.
  - intros section. apply store_nodes_section.
Qed.

Lemma process_tweaks_keeps_structure_witness :
  exists g' nodes',
    fst (process_tweaks
           (flow_of [one_node [("_type", PStr "OpenAI")]])
           (tweak_for "_type" (PStr "ChatOpenAI"))) = PDict g' /\
    validate_input (PDict g') (tweak_for "_type" (PStr "ChatOpenAI"))
    = Ok nodes' /\
    map node_id nodes' = [Some "llm"] /\
    lookup g' "edges" = Some (PList []).
Proof.
  destruct (process_tweaks_keeps_structure
              [("nodes", PList [one_node [("_type", PStr "OpenAI")]]);
               ("edges", PList [])]
              [("llm", PDict [("_type", PStr "ChatOpenAI")])] eq_refl)
    as [g' [nodes' [Hrun [Hval [Hids [Hkeys _]]]]]].
  exists g', nodes'. split; [exact Hrun|]. split; [exact Hval|].
  split; [exact Hids|].
  apply (Hkeys "edges"); discriminate.
Defined.

Lemma targets_mappings_assign_dict (template items field field' : dict)
    (name : string) :
  lookup template name = Some (PDict field) ->
  targets_mappings (assign template name (PDict field')) items
  = targets_mappings template items.
Proof.
  intros Hname. unfold targets_mappings.
  induction items as [|item items IH]; simpl; [reflexivity|].
  rewrite IH. f_equal.
  destruct (effective (fst item) (snd item)); [|reflexivity].
  destruct (String.eqb_spec name (fst item)) as [<- | Hne].
  - now rewrite lookup_assign_same, Hname.
  - now rewrite lookup_assign_other.
Qed.

Lemma tweak_template_raises (items template : dict) :
  targets_mappings template items = false ->
  exists template' e,
    tweak_template template items = (template', Err e) /\
    exn_cls e = TypeError.
Proof.
  revert template. induction items as [|[n v] rest IH]; intros template.
  - discriminate.
  - intros Hbad. simpl in Hbad.
    fold (targets_mappings template rest) in Hbad.
    simpl tweak_template. fold (effective n v).
    destruct (effective n v) eqn:Heff; simpl andb.
    + unfold mem. destruct (lookup template n) as [x|] eqn:Hx.
      * destruct x as [| | | | | |field];
          try (eexists; eexists; split; reflexivity).
        simpl in Hbad. apply IH.
        now rewrite targets_mappings_assign_dict with (field := field).
      * now apply IH.
    + now apply IH.
Qed.

Lemma tweak_node_raises (t : dict) (node : pyval) :
  node_ok t node = false ->
  exists node' e,
    tweak_node t node = (node', Err e) /\ assignment_or_attribute e.
Proof.
  unfold node_ok, node_id, tweak_node, assignment_or_attribute.
  destruct node as [| | | | | |n]; try discriminate.
  destruct (lookup n "id") as [[| | | |nid| |]|] eqn:Hid; try discriminate.
  change (get_default t nid PNone)
    with (match lookup t nid with Some v => v | None => PNone end).
  destruct (lookup t nid) as [[| | | | | |[|item items]]|]; try discriminate.
  simpl truthy. cbv iota. unfold apply_tweaks.
  destruct (get_default n "data" (PDict [])) as [| | | | | |dd] eqn:Hdata;
    try (intros _; eexists; eexists; split; [reflexivity | now right]).
  simpl dot_get.
  destruct (get_default dd "node" (PDict [])) as [| | | | | |inner] eqn:Hnode;
    try (intros _; eexists; eexists; split; [reflexivity | now right]).
  simpl dot_get. unfold get_default at 1.
  destruct (lookup inner "template") as [[| | | | | |template]|];
    try discriminate.
  intros Hbad.
  destruct (tweak_template_raises _ _ Hbad) as [template' [e [Hrun Hcls]]].
  rewrite Hrun. eexists; eexists; split; [reflexivity | now left].
Qed.

Lemma tweak_template_error_class (items template template' : dict)
    (e : exn) :
  tweak_template template items = (template', Err e) ->
  exn_cls e = TypeError.
Proof.
  revert template. induction items as [|[n v] rest IH]; intros template.
  - discriminate.
  - simpl.
    destruct (negb (n =? "") && truthy v && mem template n); [|apply IH].
    destruct (lookup template n) as [x|]; [|apply IH].
    destruct x; try apply IH; intros H; injection H as _ <-; reflexivity.
Qed.

Lemma tweak_node_error_class (t : dict) (node node' : pyval) (e : exn) :
  tweak_node t node = (node', Err e) -> assignment_or_attribute e.
Proof.
  unfold tweak_node, assignment_or_attribute.
  destruct node as [| | | | | |n]; try discriminate.
  destruct (lookup n "id") as [[| | | |nid| |]|]; try discriminate.
  destruct (truthy (get_default t nid PNone)); [|discriminate].
  unfold apply_tweaks.
  destruct (get_default n "data" (PDict [])) as [| | | | | |dd];
    try (simpl; intros H; injection H as _ <-; now right).
  simpl dot_get.
  destruct (get_default dd "node" (PDict [])) as [| | | | | |inner];
    try (simpl; intros H; injection H as _ <-; now right).
  simpl dot_get.
  destruct (get_default inner "template" PNone) as [| | | | | |template];
    try discriminate.
  destruct (get_default t nid PNone) as [| | | | | |items];
    try (simpl; intros H; injection H as _ <-; now right).
  destruct (tweak_template template items) as [template' r] eqn:Hrun.
  intros H. injection H as _ ->. left.
  eapply tweak_template_error_class; eauto.
Qed.

Lemma tweak_nodes_error_class (t : dict) (nodes nodes' : list pyval)
    (e : exn) :
  tweak_nodes t nodes = (nodes', Err e) -> assignment_or_attribute e.
Proof.
  revert nodes'. induction nodes as [|node rest IH]; intros nodes'; simpl.
  - discriminate.
  - destruct (tweak_node t node) as [node' [[]|e']] eqn:Hnode.
    + destruct (tweak_nodes t rest) as [rest' r] eqn:Hrest.
      intros H. injection H as _ ->. eapply IH; eauto.
    + intros H. injection H as _ <-.
      eapply tweak_node_error_class; eauto.
Qed.

Lemma tweak_nodes_raise (t : dict) (nodes : list pyval) :
  forallb (node_ok t) nodes = false ->
  exists nodes' e,
    tweak_nodes t nodes = (nodes', Err e) /\ assignment_or_attribute e.
Proof.
  induction nodes as [|node rest IH]; simpl; [discriminate|].
  intros Hbad. destruct (node_ok t node) eqn:Hnode.
  - destruct (IH Hbad) as [rest' [e [Hruns Hcls]]].
    destruct (tweak_node t node) as [node' [[]|e']] eqn:Hrun.
    + rewrite Hruns. eauto.
    + pose proof (tweak_node_error_class _ _ Hrun). eauto.
  - destruct (tweak_node_raises _ _ Hnode) as [node' [e [Hrun Hcls]]].
    rewrite Hrun. eauto.
Qed.

(** X3.  The shape that makes [process_tweaks] return is also needed: when
    some node reached by a non-empty dict of overrides has a non-dict under
    ["data"] or [data["node"]], or a non-dict under a template parameter
    that an effective override names, the call raises, with an
    [AttributeError] or a [TypeError]. *)
Theorem process_tweaks_raises_on_other_shapes (g t : dict)
    (nodes : list pyval) :
  validate_input (PDict g) (PDict t) = Ok nodes ->
  forallb (node_ok t) nodes = false ->
  exists e,
    snd (process_tweaks (PDict g) (PDict t)) = Err e /\
    assignment_or_attribute e.
Proof.
  intros Hval Hbad.
  destruct (tweak_nodes_raise _ _ Hbad) as [nodes' [e [Hrun Hcls]]].
  exists e. split; [|exact Hcls].
  unfold process_tweaks. now rewrite Hval, Hrun.
Qed.

Lemma process_tweaks_raises_on_other_shapes_witness :
  exists e,
    snd (process_tweaks
           (flow_of [PDict [("id", PStr "llm"); ("data", PNone)]])
           (tweak_for "temperature" (PInt 1))) = Err e /\
    assignment_or_attribute e.
Proof.
  exact (process_tweaks_raises_on_other_shapes
           [("nodes", PList [PDict [("id", PStr "llm"); ("data", PNone)]]);
            ("edges", PList [])]
           [("llm", PDict [("temperature", PInt 1)])]
           eq_refl eq_refl).
Defined.

(** X4.  [process_tweaks] raises nothing but a [ValueError], a [TypeError]
    or an [AttributeError], whatever it is given. *)
Theorem process_tweaks_error_classes (graph_data tweaks : pyval) (e : exn) :
  snd (process_tweaks graph_data tweaks) = Err e ->
  exn_cls e = ValueError \/ exn_cls e = TypeError
  \/ exn_cls e = AttributeError.
Proof.
  unfold process_tweaks.
  destruct (validate_input graph_data tweaks) as [nodes|e'] eqn:Hval.
  - destruct graph_data as [| | | | | |g]; try discriminate Hval.
    destruct tweaks as [| | | | | |t];
      try (simpl; intros H; injection H as <-; now left).
    destruct (tweak_nodes t nodes) as [nodes' [[]|e']] eqn:Hrun;
      simpl; [discriminate|].
    intros H. injection H as ->.
    destruct (tweak_nodes_error_class _ _ Hrun); auto.
  - simpl. intros H. injection H as ->.
    unfold validate_input in Hval.
    destruct graph_data as [| | | | | |g];
      try (injection Hval as <-; now left).
    destruct (negb (is_dict tweaks)); [injection Hval as <-; now left|].
    destruct (get_default g "data" (PDict [])) as [| | | | | |dd];
      try (injection Hval as <-; now right; right).
    simpl in Hval.
    destruct (if truthy (get_default dd "nodes" PNone)
              then get_default dd "nodes" PNone
              else get_default g "nodes" PNone);
      try discriminate; injection Hval as <-; now left.
Qed.

Lemma process_tweaks_error_classes_witness :
  exn_cls (Raise ValueError msg_not_dicts) = ValueError
  \/ exn_cls (Raise ValueError msg_not_dicts) = TypeError
  \/ exn_cls (Raise ValueError msg_not_dicts) = AttributeError.
Proof.
  exact (process_tweaks_error_classes (PInt 3) (PDict []) eq_refl).
Defined.

Lemma tweak_template_fixed (items template : dict) :
  (forall name value,
      In (name, value) items -> effective name value = true ->
      mem template name = true -> value_of template name = Some value) ->
  tweak_template template items = (template, Ok tt).
Proof.
  induction items as [|[n v] rest IH]; intros Hset; [reflexivity|].
  assert (Hrest : tweak_template template rest = (template, Ok tt)).
  { apply IH. intros name value Hin. apply Hset. now right. }
  simpl tweak_template. fold (effective n v).
  destruct (effective n v && mem template n) eqn:Hguard; [|exact Hrest].
  apply andb_true_iff in Hguard as [Heff Hmem].
  specialize (Hset n v (or_introl eq_refl) Heff Hmem).
  unfold value_of in Hset.
  destruct (lookup template n) as [[| | | | | |field]|] eqn:Hn;
    try discriminate.
  rewrite (assign_lookup_same _ _ Hset), (assign_lookup_same _ _ Hn).
  exact Hrest.
Qed.

Lemma tweak_template_again (items template template' : dict) :
  keys_once items = true ->
  tweak_template template items = (template', Ok tt) ->
  tweak_template template' items = (template', Ok tt).
Proof.
  intros Honce Hrun.
  destruct (targets_mappings template items) eqn:Hok.
  - destruct (tweak_template_overlays _ _ Hok) as [template'' [Hrun' Hov]].
    assert (template'' = template') by congruence. subst template''.
    destruct Hov as [Hkeys _ Happ].
    apply tweak_template_fixed. intros name value Hin Heff Hmem.
    apply Happ; auto. now rewrite <- (lookup_keys _ _ name Hkeys).
  - destruct (tweak_template_raises _ _ Hok) as [t' [e [Hrun' _]]].
    congruence.
Qed.

Lemma apply_tweaks_again (n n' : dict) (node_tweaks : pyval) :
  (forall items, node_tweaks = PDict items -> keys_once items = true) ->
  apply_tweaks n node_tweaks = (n', Ok tt) ->
  apply_tweaks n' node_tweaks = (n', Ok tt).
Proof.
  intros Honce. unfold apply_tweaks at 1.
  destruct (get_default n "data" (PDict [])) as [| | | | | |dd] eqn:Hdata;
    try discriminate.
  simpl dot_get.
  destruct (get_default dd "node" (PDict [])) as [| | | | | |inner] eqn:Hnode;
    try discriminate.
  simpl dot_get.
  destruct (get_default inner "template" PNone) as [| | | | | |template]
    eqn:Htpl;
    try (intros H; injection H as <-; unfold apply_tweaks;
         rewrite Hdata; simpl dot_get; rewrite Hnode; simpl dot_get;
         now rewrite Htpl).
  destruct node_tweaks as [| | | | | |items]; try discriminate.
  destruct (tweak_template template items) as [template' r] eqn:Hrun.
  intros H. injection H as <- ->.
  pose proof (tweak_template_again _ _ (Honce items eq_refl) Hrun) as Hagain.
  set (inner' := assign inner "template" (PDict template')).
  set (dd' := assign dd "node" (PDict inner')).
  assert (Hi : lookup inner' "template" = Some (PDict template'))
    by apply lookup_assign_same.
  assert (Hd : lookup dd' "node" = Some (PDict inner'))
    by apply lookup_assign_same.
  assert (Hn : lookup (assign n "data" (PDict dd')) "data" = Some (PDict dd'))
    by apply lookup_assign_same.
  unfold apply_tweaks, get_default. rewrite Hn. simpl dot_get.
  unfold get_default. rewrite Hd. simpl dot_get.
  unfold get_default. rewrite Hi, Hagain.
  rewrite (assign_lookup_same _ _ Hi), (assign_lookup_same _ _ Hd).
  now rewrite (assign_lookup_same _ _ Hn).
Qed.

Lemma tweak_node_again (t : dict) (node node' : pyval) :
  tweak_map t = true ->
  tweak_node t node = (node', Ok tt) ->
  tweak_node t node' = (node', Ok tt).
Proof.
  intros Hmap. unfold tweak_node at 1.
  destruct node as [| | | | | |n];
    try (intros H; injection H as <-; reflexivity).
  destruct (lookup n "id") as [[| | | |nid| |]|] eqn:Hid;
    try (intros H; injection H as <-; unfold tweak_node; now rewrite Hid).
  destruct (truthy (get_default t nid PNone)) eqn:Htruthy.
  2:{ intros H. injection H as <-. unfold tweak_node.
      now rewrite Hid, Htruthy. }
  destruct (apply_tweaks n (get_default t nid PNone)) as [n' r] eqn:Hrun.
  intros H. injection H as <- ->.
  assert (Honce : forall items,
             get_default t nid PNone = PDict items -> keys_once items = true).
  { intros items Hitems. unfold get_default in Hitems.
    destruct (lookup t nid) as [v|] eqn:Hlook; [|discriminate].
    subst v. destruct (tweak_map_entry _ _ Hmap Hlook) as [items' [Heq H]].
    now injection Heq as <-. }
  pose proof (apply_tweaks_keeps_id n (get_default t nid PNone)) as Hid'.
  rewrite Hrun in Hid'. simpl in Hid'.
  unfold tweak_node. rewrite Hid', Hid, Htruthy.
  now rewrite (apply_tweaks_again _ Honce Hrun).
Qed.

Lemma tweak_nodes_again (t : dict) (nodes nodes' : list pyval) :
  tweak_map t = true ->
  tweak_nodes t nodes = (nodes', Ok tt) ->
  tweak_nodes t nodes' = (nodes', Ok tt).
Proof.
  intros Hmap. revert nodes'.
  induction nodes as [|node rest IH]; intros nodes'; simpl.
  - intros H. now injection H as <-.
  - destruct (tweak_node t node) as [node' [[]|e]] eqn:Hnode;
      [|discriminate].
    destruct (tweak_nodes t rest) as [rest' [[]|e]] eqn:Hrest;
      [|discriminate].
    intros H. injection H as <-. simpl.
    now rewrite (tweak_node_again _ _ Hmap Hnode), (IH _ eq_refl).
Qed.

(** X5.  Applying a tweak map a second time changes nothing: when
    [process_tweaks] has returned a description, the same call on that
    description returns it again, unchanged. *)
Theorem process_tweaks_twice (g t : dict) (graph_data' : pyval) :
  tweak_map t = true ->
  process_tweaks (PDict g) (PDict t) = (graph_data', Ok graph_data') ->
  process_tweaks graph_data' (PDict t) = (graph_data', Ok graph_data').
Proof.
  intros Hmap. unfold process_tweaks at 1.
  destruct (validate_input (PDict g) (PDict t)) as [nodes|e] eqn:Hval;
    [|discriminate].
  destruct (tweak_nodes t nodes) as [nodes' [[]|e]] eqn:Hrun;
    [|discriminate].
  intros H. injection H as <-.
  assert (Hlen : List.length nodes' = List.length nodes).
  { pose proof (tweak_nodes_keep_ids t nodes) as Hids.
    rewrite Hrun in Hids. simpl in Hids.
    rewrite <- (length_map node_id), Hids. apply length_map. }
  pose proof (validate_input_store _ _ _ Hval Hlen) as Hval'.
  unfold process_tweaks.
  rewrite Hval', (tweak_nodes_again _ _ Hmap Hrun).
  now rewrite (store_nodes_same _ _ Hval').
Qed.

Lemma process_tweaks_twice_witness :
  exists graph_data',
    process_tweaks
      (flow_of [one_node [("temperature", PDict [("value", PInt 1)])]])
      (tweak_for "temperature" (PInt 9)) = (graph_data', Ok graph_data') /\
    process_tweaks graph_data' (tweak_for "temperature" (PInt 9))
    = (graph_data', Ok graph_data').
Proof.
  eexists. split; [reflexivity|].
  exact (process_tweaks_twice
           [("nodes",
             PList [one_node [("temperature", PDict [("value", PInt 1)])]]);
            ("edges", PList [])]
           [("llm", PDict [("temperature", PInt 9)])]
           eq_refl eq_refl).
Defined.

End TweakLaws.

(** ** More on the trace formatter *)

Module TraceLaws.
Import TraceFacts.

Lemma append_assoc (a b c : string) : (a ++ b) ++ c = a ++ b ++ c.
Proof. induction a as [|x a IH]; simpl; [reflexivity | now rewrite IH]. Qed.

Lemma append_empty_r (a : string) : a ++ "" = a.
Proof. induction a as [|x a IH]; simpl; [reflexivity | now rewrite IH]. Qed.

Lemma prefix_spec (a s : string) :
  prefix a s = true <-> exists post, s = a ++ post.
Proof.
  revert s. induction a as [|c a IH]; intros s.
  - split; [intros _; now exists s | intros _; now destruct s].
  - destruct s as [|c' s]; simpl.
    + split; [discriminate | intros [post H]; discriminate].
    + destruct (ascii_dec c c') as [<- | Hne].
      * rewrite IH. split; intros [post H]; exists post.
        -- now rewrite H.
        -- now injection H.
      * split; [discriminate|]. intros [post H]. injection H as H _.
        congruence.
Qed.

(** [contains] is Python's [in] on strings: the needle occurs somewhere. *)
Lemma contains_spec (needle hay : string) :
  contains needle hay = true <->
  exists pre post, hay = pre ++ needle ++ post.
Proof.
  induction hay as [|c hay IH].
  - cbn [contains]. rewrite prefix_spec. split.
    + intros [post H]. now exists "", post.
    + intros [pre [post H]]. destruct pre; [|discriminate].
      now exists post.
  - cbn [contains]. rewrite orb_true_iff, prefix_spec, IH. split.
    + intros [[post H] | [pre [post H]]].
      * now exists "", post.
      * exists (String c pre), post. simpl. now rewrite H.
    + intros [[|c' pre] [post H]].
      * left. now exists post.
      * right. injection H as _ H. now exists pre, post.
Qed.

Lemma concat_app (sep : string) (xs ys : list string) :
  xs <> [] -> ys <> [] ->
  String.concat sep (xs ++ ys)
  = String.concat sep xs ++ sep ++ String.concat sep ys.
Proof.
  intros Hxs Hys. induction xs as [|x xs IH]; [congruence|].
  destruct xs as [|x' xs].
  - simpl. destruct ys; [congruence | reflexivity].
  - change (String.concat sep ((x :: x' :: xs) ++ ys))
      with (x ++ sep ++ String.concat sep ((x' :: xs) ++ ys)).
    rewrite IH by discriminate.
    change (String.concat sep (x :: x' :: xs))
      with (x ++ sep ++ String.concat sep (x' :: xs)).
    now rewrite !append_assoc.
Qed.

Lemma concat_last_empty (sep : string) (xs : list string) :
  xs <> [] ->
  String.concat sep (xs ++ [""]) = String.concat sep xs ++ sep.
Proof.
  intros Hxs. rewrite concat_app by (assumption || discriminate).
  simpl. now rewrite append_empty_r.
Qed.

Lemma flat_map_nonempty (actions : list step) :
  actions <> [] -> flat_map spec_block actions <> [].
Proof.
  destruct actions as [|[action answer] rest]; [congruence|].
  intros _. discriminate.
Qed.

(** X6.  Whether the tool lines of a pair are written depends on one test
    only, the occurrence of "Action" somewhere in the log: the second test
    of the condition, for "Action Input", never changes the outcome. *)
Theorem format_actions_tests_action_only :
  (forall actions : list step,
      format_actions actions
      = String.concat nl (flat_map action_block actions)) /\
  (forall l : string,
      contains "Action" l = true <->
      exists pre post, l = pre ++ "Action" ++ post).
Proof.
  split; [|intros l; apply contains_spec].
  intros actions. unfold format_actions. rewrite fold_format_step.
  simpl app. f_equal.
  induction actions as [|[action answer] rest IH]; [reflexivity|].
  simpl flat_map. rewrite IH. f_equal.
  unfold spec_block, action_block.
  destruct (contains "Action" (log action)) eqn:Hc; [reflexivity|].
  destruct (contains "Action Input" (log action)) eqn:Hi; [|reflexivity].
  apply (contains_app "Action" " Input") in Hi. congruence.
Qed.

Lemma blocks_end_with_empty_line (actions : list step) :
  actions <> [] ->
  exists front,
    front <> [] /\ flat_map spec_block actions = (front ++ [""])%list.
Proof.
  induction actions as [|[action answer] rest IH]; [congruence|].
  intros _. destruct rest as [|st rest].
  - simpl flat_map. rewrite app_nil_r. unfold spec_block.
    destruct (contains "Action" (log action)
              || contains "Action Input" (log action)).
    + exists ["Log: " ++ log action; "Answer: " ++ answer].
      split; [discriminate | reflexivity].
    + exists ["Log: " ++ log action; "Tool: " ++ tool action;
              "Tool Input: " ++ tool_input action; "Answer: " ++ answer].
      split; [discriminate | reflexivity].
  - destruct IH as [front [Hfront Heq]]; [discriminate|].
    exists (spec_block (action, answer) ++ front)%list. split.
    + intros H. apply app_eq_nil in H as [_ H]. congruence.
    + change (flat_map spec_block ((action, answer) :: st :: rest))
        with (spec_block (action, answer)
                ++ flat_map spec_block (st :: rest))%list.
      now rewrite Heq, app_assoc.
Qed.

(** X7.  The trace of a non-empty list ends with a line feed, and the
    trace of two non-empty lists put end to end is the first trace, a line
    feed, and the second trace. *)
Theorem format_actions_concatenates (xs ys : list step) :
  xs <> [] -> ys <> [] ->
  (exists body, format_actions xs = body ++ nl) /\
  format_actions (xs ++ ys) = format_actions xs ++ nl ++ format_actions ys.
Proof.
  intros Hxs Hys. split.
  - destruct (blocks_end_with_empty_line Hxs) as [front [Hfront Heq]].
    exists (String.concat nl front).
    unfold format_actions. rewrite fold_format_step. simpl app.
    rewrite Heq. now apply concat_last_empty.
  - unfold format_actions. rewrite !fold_format_step. simpl app.
    rewrite flat_map_app.
    apply concat_app; now apply flat_map_nonempty.
Qed.

Lemma format_actions_concatenates_witness :
  format_actions
    ([({| tool := "Search"; tool_input := "q"; log := "look" |}, "1")]
       ++ [({| tool := "Calc"; tool_input := "2"; log := "Action: Calc" |},
            "2")])
  = format_actions
      [({| tool := "Search"; tool_input := "q"; log := "look" |}, "1")]
     ++ nl
     ++ format_actions
          [({| tool := "Calc"; tool_input := "2"; log := "Action: Calc" |},
            "2")].
Proof.
  refine (proj2 (@format_actions_concatenates
                   [({| tool := "Search"; tool_input := "q";
                        log := "look" |}, "1")]
                   [({| tool := "Calc"; tool_input := "2";
                        log := "Action: Calc" |}, "2")] _ _));
    discriminate.
Defined.

End TraceLaws.

(** ** More on memory reconciliation and the executor *)

Module ExecutorLaws.
Import Executor MemoryFacts ExecutorFacts.

Section WithMemoryPolicy.

Variable get_memory_key : attrs -> option string.


(** X9.  [get_result_and_thought] invokes the object at most twice: not at
    all when reconciliation raises; else [__call__] once, and [run] once
    after it only when [__call__] raised a [ValueError]; both with the same
    input. *)
Theorem get_result_and_thought_invocations (h : handle) (message : string)
    (o : attrs) (calls : list invocation)
    (r : result (result_value * string)) :
  get_result_and_thought get_memory_key h message = (o, calls, r) ->
  (calls = [] /\
   exists e,
     snd (fix_memory_inputs get_memory_key (fst (prepare (state h) message)))
     = Err e /\ r = Err (wrapped e)) \/
  (exists o0,
      fst (fix_memory_inputs get_memory_key (fst (prepare (state h) message)))
      = o0 /\
      ((calls = [ViaCall (build_chat_input (state h) message)] /\
        forall o1 text exc,
          call h o0 (build_chat_input (state h) message)
          = (o1, text, Err exc) ->
          is_ValueError exc = false \/ run h = None) \/
       (calls = [ViaCall (build_chat_input (state h) message);
                 ViaRun (build_chat_input (state h) message)] /\
        exists o1 text exc,
          call h o0 (build_chat_input (state h) message)
          = (o1, text, Err exc) /\
          is_ValueError exc = true))).
Proof.
  rewrite get_result_and_thought_unfold, try_block_unfold.
  destruct (fix_memory_inputs get_memory_key (fst (prepare (state h) message)))
    as [o0 [[]|e]] eqn:Hfix.
  2:{ intros H. injection H as _ <- <-. left. split; [reflexivity|].
      exists e. now split. }
  set (input := build_chat_input (state h) message).
  unfold invoke.
  destruct (call h o0 input) as [[o1 text1] [out|exc]] eqn:Hcall.
  - intros H. injection H as _ <- _. right. exists o0.
    split; [reflexivity|]. left. split; [reflexivity|].
    intros o1' text exc H. rewrite Hcall in H. discriminate.
  - destruct (is_ValueError exc) eqn:Hvalue.
    + destruct (run h) as [run_method|] eqn:Hrun.
      * destruct (run_method o1 input) as [[o2 text2] [out|exc2]];
          intros H; injection H as _ <- _; right; exists o0;
          (split; [reflexivity|]); right; (split; [reflexivity|]);
          exists o1, text1, exc; now split.
      * intros H. injection H as _ <- _. right. exists o0.
        split; [reflexivity|]. left. split; [reflexivity|].
        intros o1' text exc' _. now right.
    + intros H. injection H as _ <- _. right. exists o0.
      split; [reflexivity|]. left. split; [reflexivity|].
      intros o1' text exc' H. rewrite Hcall in H.
      injection H as _ _ <-. now left.
Qed.

(** X10.  How the first attempt's return value becomes the result.  An
    object that is not a dict is the result, and the thought is what was
    printed.  For a dict, the result is the entry under the first output
    key, [None] when the dict has no such entry; an object without
    [output_keys], or with an empty list of them, makes the call raise the
    wrapped [AttributeError] or [IndexError]. *)
Theorem get_result_and_thought_normalises (h : handle) (message : string)
    (o o1 : attrs) (text : string) (out : output) :
  fix_memory_inputs get_memory_key (fst (prepare (state h) message))
  = (o, Ok tt) ->
  call h o (build_chat_input (state h) message) = (o1, text, Ok out) ->
  exists r,
    get_result_and_thought get_memory_key h message
    = (o1, [ViaCall (build_chat_input (state h) message)], r) /\
    (forall v, out = OutObj v -> r = Ok (Data v, text)) /\
    (forall entries steps key keys,
        out = OutDict entries steps ->
        output_keys o1 = Some (key :: keys) ->
        key <> "intermediate_steps" ->
        r = Ok (Data (get_default entries key PNone),
                thought_of (steps_of out) text)) /\
    (forall entries steps,
        out = OutDict entries steps -> output_keys o1 = None ->
        r = Err (wrapped (no_attribute o1 "output_keys"))) /\
    (forall entries steps,
        out = OutDict entries steps -> output_keys o1 = Some [] ->
        r = Err (Raise ValueError "Error: list index out of range")).
Proof.
  intros Hfix Hcall.
  exists (wrap_failure (normalise o1 out text)). split.
  - rewrite get_result_and_thought_unfold, try_block_unfold, Hfix.
    unfold invoke. now rewrite Hcall.
  - split; [|split; [|split]].
    + now intros v ->.
    + intros entries steps key keys -> Hkeys Hneq.
      unfold normalise, result_of. rewrite Hkeys.
      apply String.eqb_neq in Hneq. now rewrite Hneq.
    + intros entries steps -> Hkeys.
      unfold normalise, result_of. now rewrite Hkeys.
    + intros entries steps -> Hkeys.
      unfold normalise, result_of. now rewrite Hkeys.
Qed.

End WithMemoryPolicy.


Lemma get_result_and_thought_invocations_witness :
  exists o0,
    fst (fix_memory_inputs no_replacement
           (fst (prepare (state strict_handle) "hello"))) = o0 /\
    exists o1 text exc,
      call strict_handle o0 (build_chat_input (state strict_handle) "hello")
      = (o1, text, Err exc) /\
      is_ValueError exc = true.
Proof.
  destruct (@get_result_and_thought_invocations no_replacement strict_handle
              "hello" _ _ _ eq_refl)
    as [[Hcalls _] | [o0 [Ho0 [[Hcalls _] | [_ Hcall]]]]];
    try discriminate Hcalls.
  exists o0. now split.
Defined.

Lemma get_result_and_thought_normalises_witness :
  exists o r,
    get_result_and_thought no_replacement
      {| state := plain_object None; call := echo_run; run := None |} "hello"
    = (o, [ViaCall (InMessage "hello")], r) /\
    r = Ok (Data (PStr "hello"), "> Entering new chain").
Proof.
  destruct (@get_result_and_thought_normalises no_replacement
              {| state := plain_object None; call := echo_run; run := None |}
              "hello" _ _ _ _ eq_refl eq_refl)
    as [r [Hrun [Hobj _]]].
  eexists. exists r. split; [exact Hrun|].
  exact (Hobj _ eq_refl).
Defined.

End ExecutorLaws.

(** ** More on the loader and the cached entry point *)

Module LoaderLaws.
Import Executor Loader Cached DictFacts TweakFacts ExecutorFacts.

Section WithCollaborators.

Variable get_memory_key : attrs -> option string.
Variable read_json : string -> result pyval.
Variable graph : Type.
Variable Graph : pyval -> pyval -> result graph.
Variable build_graph : graph -> result handle.

Lemma load_graph_unbuilt (log : list event) (flow_graph tweaks : pyval) :
  (forall e, In e log -> e <> Built) ->
  (forall e,
      In e (fst (load_graph get_memory_key Graph build_graph log flow_graph
                   tweaks false)) -> e <> Built) /\
  (forall h,
      snd (load_graph get_memory_key Graph build_graph log flow_graph
             tweaks false) <> Ok (Object graph h)).
Proof.
  intros Hlog. unfold load_graph.
  destruct (graph_parts flow_graph tweaks) as [[nodes edges]|e].
  - assert (Hlog' : forall e,
               In e (log ++ [Constructed nodes edges])%list ->
               e <> Built).
    { intros e Hin. apply in_app_or in Hin as [Hin | [<- | []]];
        [now apply Hlog | discriminate]. }
    destruct (Graph nodes edges) as [g|e]; simpl; split;
      auto; discriminate.
  - simpl. split; [exact Hlog | discriminate].
Qed.

(** X11.  With [build=False] the loader never builds: whatever the source
    and the tweaks, [build] is not called on a graph and no object is
    returned. *)
Theorem load_flow_from_json_unbuilt (input : source) (tweaks : pyval) :
  (forall e,
      In e (fst (load_flow_from_json get_memory_key read_json Graph
                   build_graph input tweaks false)) -> e <> Built) /\
  (forall h,
      snd (load_flow_from_json get_memory_key read_json Graph build_graph
             input tweaks false) <> Ok (Object graph h)).
Proof.
  assert (Hopened : forall path e,
             In e [Opened path] -> e <> Built).
  { intros path e [<- | []]. discriminate. }
  assert (Hpath : forall path,
             (forall e,
                 In e (fst match read_json path with
                           | Err e => ([Opened path], Err e)
                           | Ok flow_graph =>
                               load_graph get_memory_key Graph build_graph
                                 [Opened path] flow_graph tweaks false
                           end) -> e <> Built) /\
             (forall h,
                 snd match read_json path with
                     | Err e => ([Opened path], Err e)
                     | Ok flow_graph =>
                         load_graph get_memory_key Graph build_graph
                           [Opened path] flow_graph tweaks false
                     end <> Ok (Object graph h))).
  { intros path. destruct (read_json path) as [flow_graph|e].
    - apply load_graph_unbuilt. apply Hopened.
    - simpl. split; [apply Hopened | discriminate]. }
  destruct input as [path|v]; [apply Hpath|].
  destruct v; simpl; try (split; [intros e [] | discriminate]).
  - apply Hpath.
  - apply load_graph_unbuilt. intros e [].
Qed.

(** X12.  The tweaks reach the graph.  When the ["data"] section of the
    document gives its nodes and edges directly and is well shaped for the
    tweak map, the graph is constructed from the node list that
    [process_tweaks] leaves and from the edges as they were. *)
Theorem load_graph_constructs_from_tweaked_nodes (log : list event)
    (d section : dict) (tweaks edges : pyval) (build : bool) :
  lookup d "data" = Some (PDict section) ->
  lookup section "data" = None ->
  lookup section "edges" = Some edges ->
  well_shaped (PDict section) tweaks = true ->
  exists graph_data' nodes' rest,
    Tweaks.process_tweaks (PDict section) tweaks
    = (graph_data', Ok graph_data') /\
    Tweaks.validate_input graph_data' tweaks = Ok nodes' /\
    fst (load_graph get_memory_key Graph build_graph log (PDict d) tweaks
           build)
    = (log ++ Constructed (PList nodes') edges :: rest)%list.
Proof.
  intros Hdata Hflat Hedges Hshape. unfold well_shaped in Hshape.
  destruct (Tweaks.validate_input (PDict section) tweaks) as [nodes|]
    eqn:Hval; [|discriminate].
  destruct tweaks as [| | | | | |t]; try discriminate.
  apply andb_true_iff in Hshape as [Hmap Hok].
  destruct (process_tweaks_runs _ _ Hval Hmap Hok)
    as [nodes' [Hrun [Hval' _]]].
  assert (Hstore :
            Tweaks.store_nodes section nodes'
            = assign section "nodes" (PList nodes')).
  { unfold Tweaks.store_nodes, get_default. now rewrite Hflat. }
  rewrite Hstore in *.
  exists (PDict (assign section "nodes" (PList nodes'))), nodes'.
  unfold load_graph, graph_parts, subscript. rewrite Hdata. simpl bind.
  rewrite Hrun. simpl snd. simpl bind.
  rewrite lookup_assign_same. simpl bind.
  rewrite lookup_assign_other by discriminate. rewrite Hedges. simpl bind.
  destruct (Graph (PList nodes') edges) as [g|e] eqn:Hgraph.
  - destruct build.
    + exists [Built]. repeat split; auto.
      rewrite Hgraph. simpl. now rewrite <- app_assoc.
    + exists []. repeat split; auto. now rewrite Hgraph.
  - exists []. repeat split; auto. now rewrite Hgraph.
Qed.

(** X13.  A tweaks argument that is neither [None] nor a dict stops the
    load with the [ValueError] of [validate_input], and an exception of
    [process_tweaks] is the exception of the load; in both cases no graph
    is constructed. *)
Theorem load_graph_stops_on_tweak_error (log : list event) (d : dict)
    (graph_data tweaks : pyval) (build : bool) :
  lookup d "data" = Some graph_data ->
  tweaks <> PNone ->
  (is_dict tweaks = false ->
   load_graph get_memory_key Graph build_graph log (PDict d) tweaks build
   = (log, Err (Raise ValueError Tweaks.msg_not_dicts))) /\
  (forall e,
      snd (Tweaks.process_tweaks graph_data tweaks) = Err e ->
      load_graph get_memory_key Graph build_graph log (PDict d) tweaks build
      = (log, Err e)).
Proof.
  intros Hdata Hsome.
  assert (Hstop : forall e,
             snd (Tweaks.process_tweaks graph_data tweaks) = Err e ->
             load_graph get_memory_key Graph build_graph log (PDict d)
               tweaks build = (log, Err e)).
  { intros e He. unfold load_graph, graph_parts, subscript.
    rewrite Hdata. simpl bind.
    destruct tweaks; try congruence; now rewrite He. }
  split; [|exact Hstop].
  intros Hnot. apply Hstop. unfold Tweaks.process_tweaks.
  rewrite TweakFacts.validate_input_rejects_non_dicts; auto.
Qed.

(** X14.  The loader and the executor set an object up in the same way:
    what [load_flow_from_json] does to the object it has built is what
    [get_result_and_thought] does to its argument before invoking it. *)
Theorem configure_as_the_executor_prepares (h : handle) (message : string) :
  configure get_memory_key h
  = match fix_memory_inputs get_memory_key (fst (prepare (state h) message))
    with
    | (o, Ok _) => Ok (with_state h o)
    | (_, Err e) => Err e
    end.
Proof.
  unfold configure, prepare. simpl fst.
  destruct (fix_memory_inputs get_memory_key _) as [o [[]|e]]; reflexivity.
Qed.

Variable build_langchain_object_with_caching :
  pyval -> result (option handle).
Variable str_of : result_value -> string.
Variable strip : string -> string.

(** X15.  When the cache yields [None], [process_graph_cached] raises its
    own [ValueError] and invokes nothing; when it yields an object, whatever
    goes wrong afterwards is raised as a [ValueError], and a return value is
    a dict with a string under ["result"] and a string under ["thought"]. *)
Theorem process_graph_cached_outcomes (data_graph : pyval)
    (message : string) (cached : option handle) :
  build_langchain_object_with_caching data_graph = Ok cached ->
  (cached = None ->
   process_graph_cached get_memory_key build_langchain_object_with_caching
     str_of strip data_graph message
   = ([], Err (Raise ValueError msg_not_loaded))) /\
  (forall e,
      snd (process_graph_cached get_memory_key
             build_langchain_object_with_caching str_of strip data_graph
             message) = Err e ->
      exn_cls e = ValueError) /\
  (forall v,
      snd (process_graph_cached get_memory_key
             build_langchain_object_with_caching str_of strip data_graph
             message) = Ok v ->
      exists result thought,
        v = PDict [("result", PStr result); ("thought", PStr thought)]).
Proof.
  intros Hcache. unfold process_graph_cached. rewrite Hcache.
  split; [now intros ->|].
  destruct cached as [h|].
  - rewrite get_result_and_thought_unfold.
    destruct (try_block get_memory_key h message) as [[o calls] [[r th]|exc]];
      simpl; split; intros x H; try discriminate.
    + injection H as <-. eauto.
    + now injection H as <-.
  - simpl. split; intros x H; [now injection H as <- | discriminate].
Qed.

End WithCollaborators.

Lemma load_graph_constructs_from_tweaked_nodes_witness :
  exists graph_data' nodes' rest,
    Tweaks.process_tweaks
      (flow_of [one_node [("temperature", PDict [("value", PInt 1)])]])
      (tweak_for "temperature" (PInt 9)) = (graph_data', Ok graph_data') /\
    Tweaks.validate_input graph_data' (tweak_for "temperature" (PInt 9))
    = Ok nodes' /\
    fst (load_graph no_replacement pair_graph build_pair []
           (PDict
              [("data",
                flow_of
                  [one_node [("temperature", PDict [("value", PInt 1)])]])])
           (tweak_for "temperature" (PInt 9)) true)
    = ([] ++ Constructed (PList nodes') (PList []) :: rest)%list.
Proof.
  exact (load_graph_constructs_from_tweaked_nodes no_replacement pair_graph
           build_pair []
           [("data",
             flow_of [one_node [("temperature", PDict [("value", PInt 1)])]])]
           (tweak_for "temperature" (PInt 9)) true
           eq_refl eq_refl eq_refl eq_refl).
Defined.

Lemma load_graph_stops_on_tweak_error_witness :
  load_graph no_replacement pair_graph build_pair []
    (PDict [("data", flow_of [])]) (PInt 3) true
  = ([], Err (Raise ValueError Tweaks.msg_not_dicts)).
Proof.
  refine (proj1 (@load_graph_stops_on_tweak_error no_replacement _
                   pair_graph build_pair [] [("data", flow_of [])]
                   (flow_of []) (PInt 3) true eq_refl _) eq_refl).
  discriminate.
Defined.

Lemma process_graph_cached_outcomes_witness :
  process_graph_cached no_replacement (fun _ => Ok None)
    (fun _ => "") (fun thought => thought) (flow_of []) "hello"
  = ([], Err (Raise ValueError msg_not_loaded)).
Proof.
  exact (proj1 (@process_graph_cached_outcomes no_replacement
                  (fun _ => Ok None) (fun _ => "") (fun thought => thought)
                  (flow_of []) "hello" None eq_refl) eq_refl).
Defined.

End LoaderLaws.
